(** * pmt-tdd: the YAML spec runner, embedded and checked against its specification

    Two source files are embedded:
    - the status-aware runner ("PM-TDD: Test-First YAML Spec Runner"), in
      [Module StatusRunner];
    - the earlier single-spec runner [run-spec.js], in [Module SimpleRunner].

    The runners are JavaScript programs that drive a browser through
    Playwright.  The browser, the file system, the YAML parser and Node's
    [path] module are collaborators: they are gathered in a [Host] record the
    runners are parameterised by.  Every call into the host is logged, so that
    "this step was never executed" and "the browser was closed once" become
    statements about the log. *)

From Stdlib Require Import String Ascii List ZArith Lia Bool Arith.
From Stdlib Require DecimalString.
Import ListNotations.
Set Warnings "-register-all".
Local Open Scope list_scope.
Local Open Scope string_scope.

(** ** JavaScript values, as the YAML parser hands them to the runner *)

(** The integers a JavaScript number holds exactly: those below [2^53] in
    absolute value.  They print as their decimal digits. *)
Record safe_integer : Type := mkSafe {
  integer : Z;
  integer_safe : (Z.abs integer <? 2 ^ 53)%Z = true
}.

(** Strings are sequences of code units below 256; numbers are the safe
    integers (other numbers are outside the model). [VObj] lists the own
    enumerable properties in the order [Object.entries] yields them. *)
Inductive value : Type :=
| VUndefined
| VNull
| VBool (b : bool)
| VNum (n : safe_integer)
| VStr (s : string)
| VArr (items : list value)
| VObj (entries : list (string * value)).

(** JavaScript errors: a constructor name and a message. *)
Record error : Type := mkError { error_name : string; message : string }.

Definition Error (msg : string) : error := mkError "Error" msg.
Definition TypeError (msg : string) : error := mkError "TypeError" msg.

Inductive outcome (A : Type) : Type :=
| Ok (a : A)
| Throw (e : error).
Arguments Ok {A} a.
Arguments Throw {A} e.

(** [ToBoolean]. *)
Definition truthy (v : value) : bool :=
  match v with
  | VUndefined | VNull => false
  | VBool b => b
  | VNum n => negb (Z.eqb (integer n) 0)
  | VStr s => negb (String.eqb s "")
  | VArr _ | VObj _ => true
  end.

(** [a || b]. *)
Definition js_or (a b : value) : value := if truthy a then a else b.

Definition string_of_Z (z : Z) : string :=
  DecimalString.NilZero.string_of_int (Z.to_int z).

(** [ToString], as template literals and [String.prototype.includes] apply it
    to their argument.  Inside [Array.prototype.join], [null] and [undefined]
    print as the empty string. *)
Fixpoint to_string (v : value) : string :=
  match v with
  | VUndefined => "undefined"
  | VNull => "null"
  | VBool true => "true"
  | VBool false => "false"
  | VNum n => string_of_Z (integer n)
  | VStr s => s
  | VArr items =>
      let item (x : value) : string :=
        match x with
        | VUndefined | VNull => ""
        | _ => to_string x
        end in
      (fix join (l : list value) : string :=
         match l with
         | [] => ""
         | [x] => item x
         | x :: rest => item x ++ "," ++ join rest
         end) items
  | VObj _ => "[object Object]"
  end.

Fixpoint assoc (k : string) (entries : list (string * value)) : option value :=
  match entries with
  | [] => None
  | (k', v) :: rest => if String.eqb k k' then Some v else assoc k rest
  end.

(** [v.k] for the payload fields the runner reads ([selector], [value],
    [label], [option]); none of them is a property of a string, number,
    boolean or array. *)
Definition get_field (v : value) (k : string) : outcome value :=
  match v with
  | VUndefined =>
      Throw (TypeError ("Cannot read properties of undefined (reading '" ++ k ++ "')"))
  | VNull =>
      Throw (TypeError ("Cannot read properties of null (reading '" ++ k ++ "')"))
  | VObj entries =>
      match assoc k entries with
      | Some x => Ok x
      | None => Ok VUndefined
      end
  | _ => Ok VUndefined
  end.

Definition is_string (v : value) : bool :=
  match v with VStr _ => true | _ => false end.

(** The characters of a string as one-character strings, keyed by index. *)
Fixpoint char_entries (i : nat) (s : string) : list (string * value) :=
  match s with
  | EmptyString => []
  | String c rest =>
      (string_of_Z (Z.of_nat i), VStr (String c EmptyString)) :: char_entries (S i) rest
  end.

Fixpoint index_entries (i : nat) (l : list value) : list (string * value) :=
  match l with
  | [] => []
  | x :: rest => (string_of_Z (Z.of_nat i), x) :: index_entries (S i) rest
  end.

(** [Object.entries(v)]. *)
Definition object_entries (v : value) : outcome (list (string * value)) :=
  match v with
  | VUndefined | VNull => Throw (TypeError "Cannot convert undefined or null to object")
  | VBool _ | VNum _ => Ok []
  | VStr s => Ok (char_entries 0 s)
  | VArr items => Ok (index_entries 0 items)
  | VObj entries => Ok entries
  end.

(** [const [action, value] = Object.entries(step)[0];]  Indexing an empty
    array yields [undefined], which the destructuring cannot iterate. *)
Definition first_entry (step : value) : outcome (string * value) :=
  match object_entries step with
  | Throw e => Throw e
  | Ok [] => Throw (TypeError "undefined is not iterable")
  | Ok (kv :: _) => Ok kv
  end.

(** ** Strings *)

Fixpoint startsWith (s sub : string) {struct sub} : bool :=
  match sub, s with
  | EmptyString, _ => true
  | String _ _, EmptyString => false
  | String b sub', String a s' => Ascii.eqb a b && startsWith s' sub'
  end.

(** [s.includes(sub)]: some position of [s] starts an occurrence of [sub]. *)
Fixpoint includes (s sub : string) : bool :=
  startsWith s sub ||
  match s with
  | EmptyString => false
  | String _ s' => includes s' sub
  end.

(** The class [\s] of a regular expression, on code units below 256. *)
Definition is_space (c : ascii) : bool :=
  let n := nat_of_ascii c in
  ((9 <=? n) && (n <=? 13) || (n =? 32) || (n =? 160))%nat.

Definition is_upper (c : ascii) : bool :=
  let n := nat_of_ascii c in
  ((65 <=? n) && (n <=? 90) ||
   (192 <=? n) && (n <=? 222) && negb (n =? 215))%nat.

Definition lower_char (c : ascii) : ascii :=
  if is_upper c then ascii_of_nat (nat_of_ascii c + 32) else c.

(** [s.toLowerCase()], on strings of code units below 256: there lower-casing
    maps code unit to code unit ([A]-[Z] and the upper-case letters of
    Latin-1).  Strings with other code units are outside the model. *)
Fixpoint toLowerCase (s : string) : string :=
  match s with
  | EmptyString => EmptyString
  | String c rest => String (lower_char c) (toLowerCase rest)
  end.

(** [s.replace(/\s+/g, '-')]: every maximal run of white space becomes one
    dash.  [in_run] tells that the previous character was white space. *)
Fixpoint dash_runs (in_run : bool) (s : string) : string :=
  match s with
  | EmptyString => EmptyString
  | String c rest =>
      if is_space c
      then (if in_run then dash_runs true rest else String "-" (dash_runs true rest))
      else String c (dash_runs false rest)
  end.

Definition replace_whitespace (s : string) : string := dash_runs false s.

(** ** Specs, as loaded *)

(** The loader is expected to deliver the shape of a spec file: a feature
    name, an optional status and a sequence of scenarios, each with a string
    name and a sequence of steps.  The status and the steps are kept as raw
    values, since the runner inspects them dynamically; an absent [status]
    key reads as [VUndefined]. *)
Record Scenario : Type := mkScenario {
  scenario_name : string;
  scenario_steps : list value
}.

Record Spec : Type := mkSpec {
  spec_feature : string;
  spec_status : value;
  spec_scenarios : list Scenario
}.

(** ** The collaborators *)

(** Calls that return nothing of interest: they resolve or reject. *)
Inductive command : Type :=
| ChromiumLaunch (headless : bool)          (* chromium.launch({ headless }) *)
| BrowserNewPage                            (* browser.newPage() *)
| BrowserClose                              (* browser.close() *)
| FsMkdirSync (dir : string)                (* fs.mkdirSync(dir, { recursive: true }) *)
| PageGoto (url : value)                    (* page.goto(v) *)
| TextClick (text : value)                  (* page.getByText(v).click() *)
| PageClick (selector : value)              (* page.click(sel) *)
| RoleClick (role : string) (name : value)  (* page.getByRole(role, { name }).click() *)
| PageFill (selector content : value)       (* page.fill(sel, v) *)
| LabelFill (label content : value)         (* page.getByLabel(l).fill(v) *)
| LabelSelectOption (label option : value)  (* page.getByLabel(l).selectOption(o) *)
| LabelCheck (label : value)                (* page.getByLabel(l).check() *)
| LabelUncheck (label : value)              (* page.getByLabel(l).uncheck() *)
| TextHover (text : value)                  (* page.getByText(v).hover() *)
| KeyboardPress (key : value)               (* page.keyboard.press(v) *)
| PageWaitForTimeout (ms : value)           (* page.waitForTimeout(v) *)
| TextWaitFor (text : value) (state : string) (timeout : Z)
                                            (* page.getByText(v).waitFor({ state, timeout }) *)
| PageScreenshot (path : string) (fullPage : bool).
                                            (* page.screenshot({ path, fullPage }) *)

(** Calls that answer with a boolean. *)
Inductive query : Type :=
| ButtonIsDisabled (name : value)  (* page.getByRole('button', { name }).isDisabled() *)
| ButtonIsEnabled (name : value).  (* page.getByRole('button', { name }).isEnabled() *)

Inductive event : Type :=
| Did (c : command)
| Asked (q : query)
| ReadContent          (* page.content() *)
| Loaded (path : string).  (* fs.readFileSync(path, 'utf8') and yaml.parse *)

(** The host: browser engine, file system, YAML parser, [path] module and
    process environment.  [W] is the state of the world outside the runner. *)
Record Host : Type := mkHost {
  W : Type;
  host_command : command -> W -> option error * W;
  host_query : query -> W -> outcome bool * W;
  host_content : W -> outcome string * W;
  host_url : W -> string;                       (* page.url() *)
  host_existsSync : string -> W -> bool;        (* fs.existsSync *)
  host_load : string -> W -> outcome Spec;      (* readFileSync, then yaml.parse *)
  path_resolve : string -> string;
  path_dirname : string -> string;
  path_basename : string -> string -> string;   (* path.basename(p, ext) *)
  path_join : list string -> string;
  process_cwd : string;
  env_CI : option string                        (* process.env.CI *)
}.

(** ** The runner's monad: host state, event log, exceptions *)

Section Monad.
Context (H : Host).

Definition M (A : Type) : Type := W H -> outcome A * W H * list event.

Definition ret {A} (a : A) : M A := fun w => (Ok a, w, []).

Definition throw {A} (e : error) : M A := fun w => (Throw e, w, []).

Definition bind {A B} (m : M A) (k : A -> M B) : M B :=
  fun w =>
    match m w with
    | (Ok a, w1, log1) =>
        match k a w1 with
        | (r, w2, log2) => (r, w2, (log1 ++ log2)%list)
        end
    | (Throw e, w1, log1) => (Throw e, w1, log1)
    end.

(** [try { m } catch (error) { handler error }]. *)
Definition try_catch {A} (m : M A) (handler : error -> M A) : M A :=
  fun w =>
    match m w with
    | (Ok a, w1, log1) => (Ok a, w1, log1)
    | (Throw e, w1, log1) =>
        match handler e w1 with
        | (r, w2, log2) => (r, w2, (log1 ++ log2)%list)
        end
    end.

Definition lift {A} (o : outcome A) : M A :=
  match o with
  | Ok a => ret a
  | Throw e => throw e
  end.

(** [await c]. *)
Definition run (c : command) : M unit :=
  fun w =>
    match host_command H c w with
    | (None, w') => (Ok tt, w', [Did c])
    | (Some e, w') => (Throw e, w', [Did c])
    end.

Definition ask (q : query) : M bool :=
  fun w => let '(r, w') := host_query H q w in (r, w', [Asked q]).

Definition content : M string :=
  fun w => let '(r, w') := host_content H w in (r, w', [ReadContent]).

Definition url : M string := fun w => (Ok (host_url H w), w, []).

Definition existsSync (p : string) : M bool :=
  fun w => (Ok (host_existsSync H p w), w, []).

Definition load (p : string) : M Spec :=
  fun w => (host_load H p w, w, [Loaded p]).
End Monad.

Arguments ret {H A} a.
Arguments throw {H A} e.
Arguments bind {H A B} m k.
Arguments try_catch {H A} m handler.
Arguments lift {H A} o.

Declare Scope runner_scope.
Delimit Scope runner_scope with runner.
Notation "x <- m ;; k" := (bind m (fun x => k))
  (at level 61, m at next level, right associativity) : runner_scope.
Notation "m ;; k" := (bind m (fun _ => k))
  (at level 61, right associativity) : runner_scope.
Local Open Scope runner_scope.
Notation "' pat <- m ;; k" := (bind m (fun x => match x with pat => k end))
  (at level 61, pat pattern, m at next level, right associativity) : runner_scope.

(** The double-quote character, for the messages that quote their arguments. *)
Definition dquote : string := String (ascii_of_nat 34) EmptyString.

(** [switch (scrutinee) { case label: body; break; ... default: fallback }],
    for a table of string labels compared with [===]. *)
Fixpoint switch {A : Type} (scrutinee : string) (cases : list (string * A)) (fallback : A) : A :=
  match cases with
  | [] => fallback
  | (label, body) :: rest =>
      if String.eqb scrutinee label then body else switch scrutinee rest fallback
  end.

(** * The status-aware runner *)

Module StatusRunner.

(** [{ passed, failed, status }], what [runSpec] returns. *)
Record SpecResult : Type := mkSpecResult {
  passed : nat;
  failed : nat;
  status : string
}.

(** One bucket of the run summary, [{ passed: 0, failed: 0 }]. *)
Module Bucket.
Record t : Type := mk { passed : nat; failed : nat }.
Definition empty : t := mk 0 0.
End Bucket.

(** [const results = { active: {...}, draft: {...} }], together with what the
    object inherits beyond the built-in properties: [prototype_has_counters]
    tells that [Object.prototype] has been given the properties [passed] and
    [failed], which [results] and every other object then inherit. *)
Record Results : Type := mkResults {
  active : Bucket.t;
  draft : Bucket.t;
  prototype_has_counters : bool
}.

(** The properties an object literal inherits from [Object.prototype]:
    [results[k]] is defined for them although [results] has no such key. *)
Definition object_prototype_keys : list string :=
  [ "constructor"; "__defineGetter__"; "__defineSetter__"; "hasOwnProperty";
    "__lookupGetter__"; "__lookupSetter__"; "isPrototypeOf";
    "propertyIsEnumerable"; "toString"; "valueOf"; "__proto__";
    "toLocaleString" ].

Fixpoint mem (k : string) (l : list string) : bool :=
  match l with
  | [] => false
  | x :: rest => String.eqb k x || mem k rest
  end.

(** What [results[key]] finds. *)
Inductive slot : Type :=
| ActiveBucket       (* the own property [active] *)
| DraftBucket        (* the own property [draft] *)
| ObjectPrototype    (* [__proto__]: the prototype object itself *)
| Inherited          (* a value inherited from the prototype *)
| Missing.           (* [undefined] *)

Definition results_slot (results : Results) (key : string) : slot :=
  if String.eqb key "active" then ActiveBucket
  else if String.eqb key "draft" then DraftBucket
  else if String.eqb key "__proto__" then ObjectPrototype
  else if mem key object_prototype_keys then Inherited
  else if prototype_has_counters results && mem key ["passed"; "failed"] then Inherited
  else Missing.

(** [results[result.status].passed += result.passed;
     results[result.status].failed += result.failed;]
    An own key selects its bucket.  [__proto__] selects [Object.prototype]:
    both sums are stored on it, as new properties [passed] and [failed] of
    every object.  Another inherited key selects a function, or the number
    stored before: the sums are stored on the function, or dropped (the
    script is not in strict mode), and the summary is untouched.  Any other
    key reads [undefined], and reading [.passed] of it throws before anything
    is written. *)
Definition add_result (results : Results) (result : SpecResult) : outcome Results :=
  let add (b : Bucket.t) : Bucket.t :=
    Bucket.mk (Bucket.passed b + passed result) (Bucket.failed b + failed result) in
  match results_slot results (status result) with
  | ActiveBucket =>
      Ok (mkResults (add (active results)) (draft results) (prototype_has_counters results))
  | DraftBucket =>
      Ok (mkResults (active results) (add (draft results)) (prototype_has_counters results))
  | ObjectPrototype => Ok (mkResults (active results) (draft results) true)
  | Inherited => Ok results
  | Missing => Throw (TypeError "Cannot read properties of undefined (reading 'passed')")
  end.

(** [results.draft.failed++]. *)
Definition draft_failed_incr (results : Results) : Results :=
  mkResults (active results)
            (Bucket.mk (Bucket.passed (draft results)) (S (Bucket.failed (draft results))))
            (prototype_has_counters results).

(** The exit policy at the end of [main]. *)
Definition exit_code (results : Results) : nat :=
  if (0 <? Bucket.failed (active results))%nat then 1
  else if (0 <? Bucket.failed (draft results))%nat then 0
  else 0.

(** The action identifiers [executeStep] has a [case] for. *)
Definition supported_actions : list string :=
  [ "goto"; "click"; "click_button"; "click_link"; "fill"; "fill_field"; "select";
    "check"; "uncheck"; "hover"; "press"; "wait"; "wait_for"; "assert_visible";
    "assert_hidden"; "assert_url"; "assert_enabled"; "assert_disabled"; "screenshot" ].

Section WithHost.
Context (H : Host).
Local Abbreviation M := (M H).

(** The [case] table of [executeStep], in source order. *)
Definition cases (value : value) : list (string * M unit) :=
  [ ("goto", run H (PageGoto value));
    ("click",
      if is_string value then run H (TextClick value)
      else (selector <- lift (get_field value "selector") ;;
            run H (PageClick selector)));
    ("click_button", run H (RoleClick "button" value));
    ("click_link", run H (RoleClick "link" value));
    ("fill",
      selector <- lift (get_field value "selector") ;;
      content <- lift (get_field value "value") ;;
      run H (PageFill selector content));
    ("fill_field",
      label <- lift (get_field value "label") ;;
      content <- lift (get_field value "value") ;;
      run H (LabelFill label content));
    ("select",
      label <- lift (get_field value "label") ;;
      option <- lift (get_field value "option") ;;
      run H (LabelSelectOption label option));
    ("check", run H (LabelCheck value));
    ("uncheck", run H (LabelUncheck value));
    ("hover", run H (TextHover value));
    ("press", run H (KeyboardPress value));
    ("wait", run H (PageWaitForTimeout value));
    ("wait_for", run H (TextWaitFor value "visible" 10000));
    ("assert_visible", run H (TextWaitFor value "visible" 5000));
    ("assert_hidden", run H (TextWaitFor value "hidden" 5000));
    ("assert_url",
      url <- url H ;;
      if negb (includes url (to_string value))
      then throw (Error ("URL " ++ dquote ++ url ++ dquote ++ " does not contain "
                         ++ dquote ++ to_string value ++ dquote))
      else ret tt);
    ("assert_enabled",
      disabled <- ask H (ButtonIsDisabled value) ;;
      if disabled
      then throw (Error ("Button " ++ dquote ++ to_string value ++ dquote ++ " is disabled"))
      else ret tt);
    ("assert_disabled",
      enabled <- ask H (ButtonIsEnabled value) ;;
      if enabled
      then throw (Error ("Button " ++ dquote ++ to_string value ++ dquote ++ " is enabled"))
      else ret tt);
    ("screenshot",
      let dir := path_join H [process_cwd H; "screenshots"] in
      exists_ <- existsSync H dir ;;
      (if negb exists_ then run H (FsMkdirSync dir) else ret tt) ;;
      run H (PageScreenshot (path_join H [dir; to_string value ++ ".png"]) true)) ].

Definition executeStep (step : value) : M unit :=
  '(action, value) <- lift (first_entry step) ;;
  switch action (cases value) (throw (Error ("Unknown action: " ++ action))).

(** [for (const step of scenario.steps) { await executeStep(page, step); }] *)
Fixpoint run_steps (steps : list value) : M unit :=
  match steps with
  | [] => ret tt
  | step :: rest => executeStep step ;; run_steps rest
  end.

Definition screenshotDir (specPath : string) : string :=
  path_join H [path_dirname H specPath; ".."; "screenshots"].

Definition screenshotName (specPath : string) (scenario : Scenario) : string :=
  path_basename H specPath ".yaml" ++ "-"
  ++ toLowerCase (replace_whitespace (scenario_name scenario)) ++ ".png".

Definition screenshotPath (specPath : string) (scenario : Scenario) : string :=
  path_join H [screenshotDir specPath; screenshotName specPath scenario].

(** The body of the scenario loop, on the counters [(passed, failed)]. *)
Definition run_scenario (specPath : string) (counts : nat * nat) (scenario : Scenario)
  : M (nat * nat) :=
  try_catch
    (run_steps (scenario_steps scenario) ;;
     ret (S (fst counts), snd counts))
    (fun error =>
       run H (PageScreenshot (screenshotPath specPath scenario) true) ;;
       ret (fst counts, S (snd counts))).

(** [for (const scenario of spec.scenarios) { ... }] *)
Fixpoint run_scenarios (specPath : string) (counts : nat * nat) (scenarios : list Scenario)
  : M (nat * nat) :=
  match scenarios with
  | [] => ret counts
  | scenario :: rest =>
      counts' <- run_scenario specPath counts scenario ;;
      run_scenarios specPath counts' rest
  end.

(** [status.toUpperCase()], which only strings have. *)
Definition toUpperCase_receiver (status : value) : outcome string :=
  match status with
  | VStr s => Ok s
  | _ => Throw (TypeError "status.toUpperCase is not a function")
  end.

(** [!!process.env.CI]. *)
Definition headless : bool :=
  match env_CI H with
  | Some s => negb (String.eqb s "")
  | None => false
  end.

(** Everything of [runSpec] before [await browser.close()]. *)
Definition runSpec_body (specPath : string) : M SpecResult :=
  spec <- load H specPath ;;
  let status := js_or (spec_status spec) (VStr "draft") in
  status <- lift (toUpperCase_receiver status) ;;
  run H (ChromiumLaunch headless) ;;
  run H BrowserNewPage ;;
  exists_ <- existsSync H (screenshotDir specPath) ;;
  (if negb exists_ then run H (FsMkdirSync (screenshotDir specPath)) else ret tt) ;;
  counts <- run_scenarios specPath (0, 0)%nat (spec_scenarios spec) ;;
  ret (mkSpecResult (fst counts) (snd counts) status).

Definition runSpec (specPath : string) : M SpecResult :=
  result <- runSpec_body specPath ;;
  run H BrowserClose ;;
  ret result.

(** The body of the loop of [main], on the summary. *)
Definition run_file (results : Results) (specFile : string) : M Results :=
  try_catch
    (result <- runSpec specFile ;;
     lift (add_result results result))
    (fun err => ret (draft_failed_incr results)).

Fixpoint main_loop (specFiles : list string) (results : Results) : M Results :=
  match specFiles with
  | [] => ret results
  | specFile :: rest =>
      results' <- run_file results specFile ;;
      main_loop rest results'
  end.

Definition empty_results : Results := mkResults Bucket.empty Bucket.empty false.

(** [main], returning the code the process exits with. *)
Definition main (args : list string) : M nat :=
  match args with
  | [] => ret 1%nat
  | _ =>
      results <- main_loop (map (path_resolve H) args) empty_results ;;
      ret (exit_code results)
  end.

(** What each call of [runSpec] made by [main_loop] returns or throws, in
    order, the world being threaded from one call to the next. *)
Fixpoint spec_outcomes (specFiles : list string) (w : W H) : list (outcome SpecResult) :=
  match specFiles with
  | [] => []
  | specFile :: rest =>
      let '(r, w', _) := runSpec specFile w in
      r :: spec_outcomes rest w'
  end.
End WithHost.
End StatusRunner.


(** * The earlier runner, [run-spec.js] *)

Module SimpleRunner.

(** The action identifiers [executeStep] has a [case] for. *)
Definition supported_actions : list string :=
  [ "goto"; "click"; "fill"; "assert_visible"; "assert_url"; "wait" ].

Section WithHost.
Context (H : Host).
Local Abbreviation M := (M H).

(** The [case] table of [executeStep], in source order. *)
Definition cases (value : value) : list (string * M unit) :=
  [ ("goto", run H (PageGoto value));
    ("click",
      if is_string value then run H (TextClick value)
      else (selector <- lift (get_field value "selector") ;;
            run H (PageClick selector)));
    ("fill",
      selector <- lift (get_field value "selector") ;;
      content <- lift (get_field value "value") ;;
      run H (PageFill selector content));
    ("assert_visible",
      content <- content H ;;
      if negb (includes content (to_string value))
      then throw (Error ("Text " ++ dquote ++ to_string value ++ dquote ++ " not found on page"))
      else ret tt);
    ("assert_url",
      url <- url H ;;
      if negb (includes url (to_string value))
      then throw (Error ("URL " ++ dquote ++ url ++ dquote ++ " does not contain "
                         ++ dquote ++ to_string value ++ dquote))
      else ret tt);
    ("wait", run H (PageWaitForTimeout value)) ].

Definition executeStep (step : value) : M unit :=
  '(action, value) <- lift (first_entry step) ;;
  switch action (cases value) (throw (Error ("Unknown action: " ++ action))).

Fixpoint run_steps (steps : list value) : M unit :=
  match steps with
  | [] => ret tt
  | step :: rest => executeStep step ;; run_steps rest
  end.

(** The body of the scenario loop, on the counters [(passed, failed)]. *)
Definition run_scenario (counts : nat * nat) (scenario : Scenario) : M (nat * nat) :=
  try_catch
    (run_steps (scenario_steps scenario) ;;
     ret (S (fst counts), snd counts))
    (fun error => ret (fst counts, S (snd counts))).

Fixpoint run_scenarios (counts : nat * nat) (scenarios : list Scenario) : M (nat * nat) :=
  match scenarios with
  | [] => ret counts
  | scenario :: rest =>
      counts' <- run_scenario counts scenario ;;
      run_scenarios counts' rest
  end.

(** [runSpec] answers whether no scenario failed. *)
Definition runSpec (specPath : string) : M bool :=
  spec <- load H specPath ;;
  run H (ChromiumLaunch false) ;;
  run H BrowserNewPage ;;
  counts <- run_scenarios (0, 0)%nat (spec_scenarios spec) ;;
  run H BrowserClose ;;
  ret (snd counts =? 0)%nat.

(** The script body: [process.argv[2]] is the only argument read, and an
    empty one counts as missing. *)
Definition main (args : list string) : M nat :=
  match args with
  | [] => ret 1%nat
  | specPath :: _ =>
      if String.eqb specPath "" then ret 1%nat
      else
        try_catch
          (success <- runSpec (path_resolve H specPath) ;;
           ret (if success then 0 else 1)%nat)
          (fun err => ret 1%nat)
  end.
End WithHost.
End SimpleRunner.


(** * A scripted host, to run the two runners on concrete specs *)

Module Fixture.

(** The world is the address the page is at.  Navigating to an address that
    mentions [crash] crashes the page: the navigation rejects, and so does
    every later screenshot.  The page shows the text [Welcome to <address>]. *)
Definition world : Type := string.

Definition page_text (w : world) : string := "Welcome to " ++ w.

Definition crashed (w : world) : bool := includes w "crash".

Definition command (c : command) (w : world) : option error * world :=
  match c with
  | PageGoto (VStr u) =>
      if includes u "crash" then (Some (Error "Page crashed"), u) else (None, u)
  | PageGoto _ => (Some (Error "url: expected string"), w)
  | TextClick v | TextHover v | TextWaitFor v "visible" _ =>
      if includes (page_text w) (to_string v) then (None, w)
      else (Some (mkError "TimeoutError" "Timeout exceeded"), w)
  | PageScreenshot _ _ =>
      if crashed w then (Some (Error "Target crashed"), w) else (None, w)
  | _ => (None, w)
  end.

Definition query (q : query) (w : world) : outcome bool * world :=
  match q with
  | ButtonIsDisabled _ => (Ok false, w)
  | ButtonIsEnabled _ => (Ok true, w)
  end.

Definition step (action : string) (payload : string) : value :=
  VObj [(action, VStr payload)].

Definition happy_path : Scenario :=
  mkScenario "Happy path" [step "goto" "https://x.test/login"; step "assert_url" "/login"].

Definition wrong_password : Scenario :=
  mkScenario "Wrong Password"
    [ step "goto" "https://x.test/login"; step "click" "Missing";
      step "goto" "https://x.test/never" ].

Definition landing : Scenario :=
  mkScenario "Landing" [step "goto" "https://x.test/"; step "assert_visible" "Welcome"].

Definition crash_scenario : Scenario :=
  mkScenario "Crash" [step "goto" "chrome://crash"].

Definition after_scenario : Scenario :=
  mkScenario "After" [step "goto" "https://x.test/after"].

(** An active spec: the first scenario passes, the second fails. *)
Definition login_spec : Spec :=
  mkSpec "Login" (VStr "active") [happy_path; wrong_password].

(** A spec without status: its only scenario fails. *)
Definition reset_spec : Spec :=
  mkSpec "Password reset" VUndefined
    [ mkScenario "Request  reset link" [step "goto" "https://x.test/reset"; step "click" "Reset"] ].

(** An active spec whose scenarios all pass. *)
Definition home_spec : Spec :=
  mkSpec "Home" (VStr "active") [landing].

(** An active spec whose first scenario crashes the page. *)
Definition crash_spec : Spec :=
  mkSpec "Crash" (VStr "active") [crash_scenario; after_scenario].

(** Specs whose status is neither [draft] nor [active]. *)
Definition wip_spec : Spec :=
  mkSpec "Work in progress" (VStr "wip")
    [ mkScenario "Pending" [step "click" "Missing"] ].

Definition constructor_spec : Spec :=
  mkSpec "Constructor" (VStr "constructor")
    [ mkScenario "Pending" [step "click" "Missing"] ].

Definition proto_spec : Spec :=
  mkSpec "Prototype" (VStr "__proto__")
    [ mkScenario "Pending" [step "click" "Missing"] ].

Definition passed_status_spec : Spec :=
  mkSpec "Passed" (VStr "passed")
    [ mkScenario "Pending" [step "click" "Missing"] ].

Definition numeric_status_spec : Spec :=
  mkSpec "Numeric" (VNum (mkSafe 1 eq_refl))
    [ mkScenario "Pending" [step "click" "Missing"] ].

Definition files : list (string * Spec) :=
  [ ("/p/specs/login.yaml", login_spec);
    ("/p/specs/reset.yaml", reset_spec);
    ("/p/specs/home.yaml", home_spec);
    ("/p/specs/crash.yaml", crash_spec);
    ("/p/specs/wip.yaml", wip_spec);
    ("/p/specs/constructor.yaml", constructor_spec);
    ("/p/specs/proto.yaml", proto_spec);
    ("/p/specs/passed.yaml", passed_status_spec);
    ("/p/specs/numeric.yaml", numeric_status_spec) ].

Fixpoint lookup (path : string) (table : list (string * Spec)) : outcome Spec :=
  match table with
  | [] => Throw (Error ("ENOENT: no such file or directory, open '" ++ path ++ "'"))
  | (p, spec) :: rest => if String.eqb path p then Ok spec else lookup path rest
  end.

(** A plain stand-in for Node's [path] on absolute paths: no normalisation. *)
Definition slash : ascii := ascii_of_nat 47.

Fixpoint until_slash (l : list ascii) : list ascii :=
  match l with
  | [] => []
  | c :: rest => if Ascii.eqb c slash then [] else c :: until_slash rest
  end.

Fixpoint after_slash (l : list ascii) : list ascii :=
  match l with
  | [] => []
  | c :: rest => if Ascii.eqb c slash then rest else after_slash rest
  end.

Definition dirname (p : string) : string :=
  string_of_list_ascii (rev (after_slash (rev (list_ascii_of_string p)))).

Definition last_segment (p : string) : string :=
  string_of_list_ascii (rev (until_slash (rev (list_ascii_of_string p)))).

Fixpoint strip_suffix (s ext : string) : option string :=
  if String.eqb s ext then Some EmptyString
  else match s with
       | EmptyString => None
       | String c s' =>
           match strip_suffix s' ext with
           | Some stem => Some (String c stem)
           | None => None
           end
       end.

Definition basename (p ext : string) : string :=
  let base := last_segment p in
  match strip_suffix base ext with
  | Some EmptyString | None => base
  | Some stem => stem
  end.

Definition host : Host :=
  {| W := world;
     host_command := command;
     host_query := query;
     host_content := fun w => (Ok (page_text w), w);
     host_url := fun w => w;
     host_existsSync := fun _ _ => true;
     host_load := fun p _ => lookup p files;
     path_resolve := fun p => p;
     path_dirname := dirname;
     path_basename := basename;
     path_join := String.concat "/";
     process_cwd := "/p";
     env_CI := Some "true" |}.

Definition start : world := "about:blank".
End Fixture.


(** * Specification-level notions *)

(** [sub] occurs in [s], character for character. *)
Definition occurs_in (sub s : string) : Prop :=
  exists pre post, s = pre ++ sub ++ post.

Definition launches (log : list event) : nat :=
  length (filter (fun e => match e with Did (ChromiumLaunch _) => true | _ => false end) log).

Definition closes (log : list event) : nat :=
  length (filter (fun e => match e with Did BrowserClose => true | _ => false end) log).

(** An active result with a failed scenario. *)
Definition active_failure (o : outcome StatusRunner.SpecResult) : bool :=
  match o with
  | Ok r => String.eqb (StatusRunner.status r) "active" && (0 <? StatusRunner.failed r)%nat
  | Throw _ => false
  end.

(** What one iteration of the loop of [main] does to the summary, given what
    [runSpec] returned or threw. *)
Definition absorb (results : StatusRunner.Results) (o : outcome StatusRunner.SpecResult)
  : StatusRunner.Results :=
  match o with
  | Ok r =>
      match StatusRunner.add_result results r with
      | Ok results' => results'
      | Throw _ => StatusRunner.draft_failed_incr results
      end
  | Throw _ => StatusRunner.draft_failed_incr results
  end.

(** Events other than opening and closing a browser. *)
Definition page_level (e : event) : bool :=
  match e with
  | Did (ChromiumLaunch _) | Did BrowserClose => false
  | _ => true
  end.

(** A computation that neither opens nor closes a browser. *)
Definition session_neutral {H : Host} {A : Type} (m : M H A) : Prop :=
  forall w, forallb page_level (snd (m w)) = true.

Definition active_failed (results : StatusRunner.Results) : nat :=
  StatusRunner.Bucket.failed (StatusRunner.active results).

Definition draft_failed (results : StatusRunner.Results) : nat :=
  StatusRunner.Bucket.failed (StatusRunner.draft results).

(** Failures of one outcome that go to the active bucket. *)
Definition active_failures (o : outcome StatusRunner.SpecResult) : nat :=
  match o with
  | Ok r => if String.eqb (StatusRunner.status r) "active" then StatusRunner.failed r else 0
  | Throw _ => 0
  end.

(** Failures one outcome adds to the draft bucket of a summary: those of a
    draft result, and one for a run that threw or whose status finds nothing
    in the summary. *)
Definition draft_failures (results : StatusRunner.Results)
  (o : outcome StatusRunner.SpecResult) : nat :=
  match o with
  | Ok r =>
      match StatusRunner.results_slot results (StatusRunner.status r) with
      | StatusRunner.DraftBucket => StatusRunner.failed r
      | StatusRunner.Missing => 1
      | _ => 0
      end
  | Throw _ => 1
  end.

(** Whether an outcome gives [Object.prototype] the two counters. *)
Definition reaches_prototype (o : outcome StatusRunner.SpecResult) : bool :=
  match o with
  | Ok r => String.eqb (StatusRunner.status r) "__proto__"
  | Throw _ => false
  end.

(** The draft failures of a sequence of outcomes, absorbed in order from a
    summary whose prototype has the counters or not. *)
Fixpoint draft_failures_from (has_counters : bool)
  (outcomes : list (outcome StatusRunner.SpecResult)) : nat :=
  match outcomes with
  | [] => 0
  | o :: rest =>
      draft_failures
        (StatusRunner.mkResults StatusRunner.Bucket.empty StatusRunner.Bucket.empty has_counters) o
      + draft_failures_from (has_counters || reaches_prototype o) rest
  end.

(** A step that is a mapping with at least one entry. *)
Definition is_mapping (step : value) : bool :=
  match step with
  | VObj (_ :: _) => true
  | _ => false
  end.

(** A computation that logs at most [n] calls into the host. *)
Definition calls_at_most {H : Host} {A : Type} (n : nat) (m : M H A) : Prop :=
  forall w, length (snd (m w)) <= n.

(** Passes one outcome adds to the active and to the draft bucket. *)
Definition active_passes (o : outcome StatusRunner.SpecResult) : nat :=
  match o with
  | Ok r => if String.eqb (StatusRunner.status r) "active" then StatusRunner.passed r else 0
  | Throw _ => 0
  end.

Definition draft_passes (o : outcome StatusRunner.SpecResult) : nat :=
  match o with
  | Ok r =>
      if String.eqb (StatusRunner.status r) "active" then 0
      else if String.eqb (StatusRunner.status r) "draft" then StatusRunner.passed r
      else 0
  | Throw _ => 0
  end.

(** * Strings *)

Lemma startsWith_spec (sub s : string) :
  startsWith s sub = true <-> exists post, s = sub ++ post.
Proof.
  revert s; induction sub as [|b sub IH]; intros s; simpl.
  - split; [intros _; now exists s | reflexivity].
  - destruct s as [|a s]; simpl.
    + split; [discriminate | intros [post Hpost]; discriminate].
    + rewrite andb_true_iff, Ascii.eqb_eq, IH. split.
      * intros [-> [post ->]]. now exists post.
      * intros [post Hpost]. injection Hpost as -> ->. split; [reflexivity | now exists post].
Qed.

Lemma includes_spec (sub s : string) :
  includes s sub = true <-> occurs_in sub s.
Proof.
  unfold occurs_in. induction s as [|a s IH]; simpl.
  - rewrite orb_false_r, startsWith_spec. split.
    + intros [post Hpost]. now exists EmptyString, post.
    + intros [pre [post Hs]]. destruct pre; simpl in Hs; [now exists post | discriminate].
  - rewrite orb_true_iff, startsWith_spec, IH. split.
    + intros [[post Hpost] | [pre [post Hs]]].
      * now exists EmptyString, post.
      * exists (String a pre), post. simpl. now rewrite Hs.
    + intros [pre [post Hs]]. destruct pre as [|c pre]; simpl in Hs.
      * left. now exists post.
      * right. injection Hs as _ Hs. now exists pre, post.
Qed.

Lemma switch_fallback {A : Type} (scrutinee : string) (cases : list (string * A)) (fallback : A) :
  ~ In scrutinee (map fst cases) -> switch scrutinee cases fallback = fallback.
Proof.
  induction cases as [|[label body] rest IH]; simpl; intros Hnot; [reflexivity|].
  destruct (String.eqb_spec scrutinee label) as [->|_].
  - exfalso. apply Hnot. now left.
  - apply IH. intros Hin. apply Hnot. now right.
Qed.

Lemma status_cases_labels (H : Host) (v : value) :
  map fst (StatusRunner.cases H v) = StatusRunner.supported_actions.
Proof. reflexivity. Qed.

Lemma simple_cases_labels (H : Host) (v : value) :
  map fst (SimpleRunner.cases H v) = SimpleRunner.supported_actions.
Proof. reflexivity. Qed.

(** * Steps *)

Lemma status_assert_url_run (H : Host) (expected : value) (w : W H) :
  StatusRunner.executeStep H (VObj [("assert_url", expected)]) w =
  if includes (host_url H w) (to_string expected)
  then (Ok tt, w, [])
  else (Throw (Error ("URL " ++ dquote ++ host_url H w ++ dquote ++ " does not contain "
                      ++ dquote ++ to_string expected ++ dquote)), w, []).
Proof.
  unfold StatusRunner.executeStep, bind, lift, ret; simpl.
  unfold bind, url, throw, ret.
  destruct (includes (host_url H w) (to_string expected)); reflexivity.
Qed.

Lemma simple_assert_url_run (H : Host) (expected : value) (w : W H) :
  SimpleRunner.executeStep H (VObj [("assert_url", expected)]) w =
  if includes (host_url H w) (to_string expected)
  then (Ok tt, w, [])
  else (Throw (Error ("URL " ++ dquote ++ host_url H w ++ dquote ++ " does not contain "
                      ++ dquote ++ to_string expected ++ dquote)), w, []).
Proof.
  unfold SimpleRunner.executeStep, bind, lift, ret; simpl.
  unfold bind, url, throw, ret.
  destruct (includes (host_url H w) (to_string expected)); reflexivity.
Qed.

(** C7. Whatever the address of the page and the expected string, an
    [assert_url] step passes exactly when the expected string occurs in the
    address character for character (no case folding, no normalisation), and
    otherwise throws an [Error] that quotes both; the host is not called.
    This holds in both runners. *)
Theorem assert_url_passes_iff_url_contains (H : Host) (expected : string) (w : W H) :
  let step := VObj [("assert_url", VStr expected)] in
  let failure :=
    Error ("URL " ++ dquote ++ host_url H w ++ dquote ++ " does not contain "
           ++ dquote ++ expected ++ dquote) in
  (StatusRunner.executeStep H step w = (Ok tt, w, []) <-> occurs_in expected (host_url H w)) /\
  (StatusRunner.executeStep H step w = (Throw failure, w, []) <-> ~ occurs_in expected (host_url H w)) /\
  (SimpleRunner.executeStep H step w = (Ok tt, w, []) <-> occurs_in expected (host_url H w)) /\
  (SimpleRunner.executeStep H step w = (Throw failure, w, []) <-> ~ occurs_in expected (host_url H w)).
Proof.
  intros step failure. subst step failure.
  rewrite status_assert_url_run, simple_assert_url_run. simpl to_string.
  rewrite <- includes_spec.
  destruct (includes (host_url H w) expected); repeat split;
    intros; try reflexivity; try discriminate; try congruence.
Qed.

(** The examples of the specification. *)
Example assert_url_dashboard :
  includes "https://x.test/dashboard?tab=1" "/dashboard" = true /\
  includes "https://x.test/dashboard?tab=1" "/Dashboard" = false.
Proof. split; reflexivity. Qed.

Lemma status_executeStep_entry
  (H : Host) (action : string) (payload : value) (others : list (string * value)) (w : W H) :
  StatusRunner.executeStep H (VObj ((action, payload) :: others)) w
  = switch action (StatusRunner.cases H payload)
      (throw (Error ("Unknown action: " ++ action))) w.
Proof.
  unfold StatusRunner.executeStep, bind, lift, ret.
  change (first_entry (VObj ((action, payload) :: others))) with (Ok (action, payload)).
  cbv iota beta.
  match goal with |- context [switch ?a ?c ?d w] => destruct (switch a c d w) as [[r w'] log] end.
  reflexivity.
Qed.

Lemma simple_executeStep_entry
  (H : Host) (action : string) (payload : value) (others : list (string * value)) (w : W H) :
  SimpleRunner.executeStep H (VObj ((action, payload) :: others)) w
  = switch action (SimpleRunner.cases H payload)
      (throw (Error ("Unknown action: " ++ action))) w.
Proof.
  unfold SimpleRunner.executeStep, bind, lift, ret.
  change (first_entry (VObj ((action, payload) :: others))) with (Ok (action, payload)).
  cbv iota beta.
  match goal with |- context [switch ?a ?c ?d w] => destruct (switch a c d w) as [[r w'] log] end.
  reflexivity.
Qed.

(** C8. A step whose one key is not an action of the runner's table throws
    an [Error] whose message is [Unknown action: ] followed by that key; the
    host is not called and the world is left as it was, so the step is never
    a silent no-op.  This holds in both runners, each for its own table. *)
Theorem unknown_action_raises_naming_it (H : Host) (action : string) (payload : value) (w : W H) :
  (~ In action StatusRunner.supported_actions ->
   StatusRunner.executeStep H (VObj [(action, payload)]) w
   = (Throw (Error ("Unknown action: " ++ action)), w, [])) /\
  (~ In action SimpleRunner.supported_actions ->
   SimpleRunner.executeStep H (VObj [(action, payload)]) w
   = (Throw (Error ("Unknown action: " ++ action)), w, [])).
Proof.
  split; intros Hnot.
  - rewrite status_executeStep_entry, switch_fallback by (now rewrite status_cases_labels).
    reflexivity.
  - rewrite simple_executeStep_entry, switch_fallback by (now rewrite simple_cases_labels).
    reflexivity.
Qed.

Lemma unknown_action_raises_naming_it_witness :
  StatusRunner.executeStep Fixture.host (VObj [("foo", VStr "bar")]) Fixture.start
  = (Throw (Error "Unknown action: foo"), Fixture.start, []) /\
  SimpleRunner.executeStep Fixture.host (VObj [("hover", VStr "Menu")]) Fixture.start
  = (Throw (Error "Unknown action: hover"), Fixture.start, []).
Proof.
  split.
  - apply (unknown_action_raises_naming_it Fixture.host "foo" (VStr "bar") Fixture.start).
    simpl. intuition discriminate.
  - apply (unknown_action_raises_naming_it Fixture.host "hover" (VStr "Menu") Fixture.start).
    simpl. intuition discriminate.
Defined.

(** C10. Whatever the entries behind it, the first entry of a step object
    decides what the step does: its key is the action looked up in the table
    of the runner, its value is the payload handed to the case found, and a
    key the table does not have falls to the default branch that names it.
    The other entries are not looked at and the step is not rejected for
    having them: a step runs exactly as the step made of its first entry
    alone.  This holds in both runners. *)
Theorem only_first_entry_is_dispatched
  (H : Host) (action : string) (payload : value) (others : list (string * value)) (w : W H) :
  StatusRunner.executeStep H (VObj ((action, payload) :: others)) w
  = switch action (StatusRunner.cases H payload)
      (throw (Error ("Unknown action: " ++ action))) w /\
  SimpleRunner.executeStep H (VObj ((action, payload) :: others)) w
  = switch action (SimpleRunner.cases H payload)
      (throw (Error ("Unknown action: " ++ action))) w /\
  StatusRunner.executeStep H (VObj ((action, payload) :: others)) w
  = StatusRunner.executeStep H (VObj [(action, payload)]) w /\
  SimpleRunner.executeStep H (VObj ((action, payload) :: others)) w
  = SimpleRunner.executeStep H (VObj [(action, payload)]) w.
Proof.
  split; [|split; [|split]].
  - apply status_executeStep_entry.
  - apply simple_executeStep_entry.
  - now rewrite !status_executeStep_entry.
  - now rewrite !simple_executeStep_entry.
Qed.

(** The first entry selects the action and carries the payload, also when a
    later entry names another action. *)
Example first_entry_selects_action_and_payload :
  StatusRunner.executeStep Fixture.host
    (VObj [("click", VStr "Welcome"); ("goto", VStr "https://x.test/b")]) Fixture.start
  = (Ok tt, Fixture.start, [Did (TextClick (VStr "Welcome"))]) /\
  StatusRunner.executeStep Fixture.host
    (VObj [("frobnicate", VNull); ("goto", VStr "https://x.test/b")]) Fixture.start
  = (Throw (Error "Unknown action: frobnicate"), Fixture.start, []).
Proof. split; reflexivity. Qed.

(** A two-key step: the second key, unknown as an action, raises nothing. *)
Example two_key_step_runs_first_key :
  StatusRunner.executeStep Fixture.host
    (VObj [("goto", VStr "https://x.test/a"); ("frobnicate", VNull)]) Fixture.start
  = (Ok tt, "https://x.test/a", [Did (PageGoto (VStr "https://x.test/a"))]).
Proof. reflexivity. Qed.

(** * Sequencing *)

Section MonadFacts.
Context {H : Host}.

Lemma bind_ok {A B : Type} (m : M H A) (k : A -> M H B) (w w1 : W H) (a : A) (log1 : list event) :
  m w = (Ok a, w1, log1) ->
  bind m k w = (let '(r, w2, log2) := k a w1 in (r, w2, (log1 ++ log2)%list)).
Proof. intros Hm. unfold bind. rewrite Hm. now destruct (k a w1) as [[r w2] log2]. Qed.

Lemma bind_throw {A B : Type} (m : M H A) (k : A -> M H B) (w w1 : W H) (e : error)
  (log1 : list event) :
  m w = (Throw e, w1, log1) -> bind m k w = (Throw e, w1, log1).
Proof. intros Hm. unfold bind. now rewrite Hm. Qed.

Lemma try_catch_ok {A : Type} (m : M H A) (h : error -> M H A) (w w1 : W H) (a : A)
  (log1 : list event) :
  m w = (Ok a, w1, log1) -> try_catch m h w = (Ok a, w1, log1).
Proof. intros Hm. unfold try_catch. now rewrite Hm. Qed.

Lemma try_catch_throw {A : Type} (m : M H A) (h : error -> M H A) (w w1 : W H) (e : error)
  (log1 : list event) :
  m w = (Throw e, w1, log1) ->
  try_catch m h w = (let '(r, w2, log2) := h e w1 in (r, w2, (log1 ++ log2)%list)).
Proof. intros Hm. unfold try_catch. rewrite Hm. now destruct (h e w1) as [[r w2] log2]. Qed.

Lemma run_log (c : command) (w : W H) :
  exists r w', run H c w = (r, w', [Did c]).
Proof.
  unfold run. destruct (host_command H c w) as [[e|] w']; eauto.
Qed.
End MonadFacts.

(** * Scenarios *)

(** Once a step throws, the loop over the steps is left: the steps behind
    it contribute nothing to the outcome, the world or the log. *)
Lemma status_run_steps_fail_fast (H : Host) (pre post : list value) (bad : value)
  (w w1 w2 : W H) (log1 log2 : list event) (e : error) :
  StatusRunner.run_steps H pre w = (Ok tt, w1, log1) ->
  StatusRunner.executeStep H bad w1 = (Throw e, w2, log2) ->
  StatusRunner.run_steps H (pre ++ bad :: post) w = (Throw e, w2, (log1 ++ log2)%list).
Proof.
  revert w log1. induction pre as [|step pre IH]; intros w log1 Hpre Hbad.
  - injection Hpre as <- <-. simpl. now rewrite (bind_throw _ _ _ _ _ _ Hbad).
  - simpl in Hpre |- *. unfold bind in Hpre |- *.
    destruct (StatusRunner.executeStep H step w) as [[[[]|e0] w0] log0]; [|discriminate].
    destruct (StatusRunner.run_steps H pre w0) as [[r0 w0'] log0'] eqn:Hrest.
    injection Hpre as -> -> <-.
    rewrite (IH _ _ Hrest Hbad). now rewrite app_assoc.
Qed.

Lemma simple_run_steps_fail_fast (H : Host) (pre post : list value) (bad : value)
  (w w1 w2 : W H) (log1 log2 : list event) (e : error) :
  SimpleRunner.run_steps H pre w = (Ok tt, w1, log1) ->
  SimpleRunner.executeStep H bad w1 = (Throw e, w2, log2) ->
  SimpleRunner.run_steps H (pre ++ bad :: post) w = (Throw e, w2, (log1 ++ log2)%list).
Proof.
  revert w log1. induction pre as [|step pre IH]; intros w log1 Hpre Hbad.
  - injection Hpre as <- <-. simpl. now rewrite (bind_throw _ _ _ _ _ _ Hbad).
  - simpl in Hpre |- *. unfold bind in Hpre |- *.
    destruct (SimpleRunner.executeStep H step w) as [[[[]|e0] w0] log0]; [|discriminate].
    destruct (SimpleRunner.run_steps H pre w0) as [[r0 w0'] log0'] eqn:Hrest.
    injection Hpre as -> -> <-.
    rewrite (IH _ _ Hrest Hbad). now rewrite app_assoc.
Qed.

(** A loop over steps that throws has a first step that threw. *)
Lemma status_run_steps_throw_inv (H : Host) (steps : list value) (w w2 : W H)
  (log : list event) (e : error) :
  StatusRunner.run_steps H steps w = (Throw e, w2, log) ->
  exists pre bad post w1 log1 log2,
    steps = (pre ++ bad :: post)%list /\
    StatusRunner.run_steps H pre w = (Ok tt, w1, log1) /\
    StatusRunner.executeStep H bad w1 = (Throw e, w2, log2) /\
    log = (log1 ++ log2)%list.
Proof.
  revert w log. induction steps as [|step steps IH]; intros w log Hrun.
  - discriminate.
  - simpl in Hrun. unfold bind in Hrun.
    destruct (StatusRunner.executeStep H step w) as [[[[]|e0] w0] log0] eqn:Hstep.
    + destruct (StatusRunner.run_steps H steps w0) as [[r0 w0'] log0'] eqn:Hrest.
      injection Hrun as -> -> <-.
      destruct (IH _ _ Hrest) as (pre & bad & post & w1 & log1 & log2 & -> & Hpre & Hbad & ->).
      exists (step :: pre), bad, post, w1, (log0 ++ log1)%list, log2.
      repeat split; [| assumption | now rewrite app_assoc].
      simpl. unfold bind. now rewrite Hstep, Hpre.
    + injection Hrun as -> -> <-.
      exists [], step, steps, w, [], log0. repeat split. assumption.
Qed.

Lemma status_run_scenario_failed (H : Host) (specPath : string) (counts : nat * nat)
  (scenario : Scenario) (w w2 : W H) (log : list event) (e : error) :
  StatusRunner.run_steps H (scenario_steps scenario) w = (Throw e, w2, log) ->
  StatusRunner.run_scenario H specPath counts scenario w =
  match host_command H (PageScreenshot (StatusRunner.screenshotPath H specPath scenario) true) w2 with
  | (None, w3) =>
      (Ok (fst counts, S (snd counts)), w3,
       (log ++ [Did (PageScreenshot (StatusRunner.screenshotPath H specPath scenario) true)])%list)
  | (Some e', w3) =>
      (Throw e', w3,
       (log ++ [Did (PageScreenshot (StatusRunner.screenshotPath H specPath scenario) true)])%list)
  end.
Proof.
  intros Hsteps. unfold StatusRunner.run_scenario.
  rewrite (try_catch_throw _ _ w w2 e log) by (now apply bind_throw).
  unfold bind, run, ret.
  destruct (host_command H _ w2) as [[e'|] w3]; reflexivity.
Qed.

Lemma status_run_scenario_passed (H : Host) (specPath : string) (counts : nat * nat)
  (scenario : Scenario) (w w1 : W H) (log : list event) :
  StatusRunner.run_steps H (scenario_steps scenario) w = (Ok tt, w1, log) ->
  StatusRunner.run_scenario H specPath counts scenario w
  = (Ok (S (fst counts), snd counts), w1, log).
Proof.
  intros Hsteps. unfold StatusRunner.run_scenario.
  apply try_catch_ok. rewrite (bind_ok _ _ _ _ _ _ Hsteps). unfold ret.
  now rewrite app_nil_r.
Qed.

Lemma simple_run_scenario_failed (H : Host) (counts : nat * nat)
  (scenario : Scenario) (w w2 : W H) (log : list event) (e : error) :
  SimpleRunner.run_steps H (scenario_steps scenario) w = (Throw e, w2, log) ->
  SimpleRunner.run_scenario H counts scenario w = (Ok (fst counts, S (snd counts)), w2, log).
Proof.
  intros Hsteps. unfold SimpleRunner.run_scenario.
  rewrite (try_catch_throw _ _ w w2 e log) by (now apply bind_throw).
  unfold ret. now rewrite app_nil_r.
Qed.

(** When the host never refuses a failure screenshot, the scenario loop
    always completes, and every scenario is counted once, as passed or as
    failed. *)
Lemma status_run_scenarios_completes (H : Host) (specPath : string) :
  (forall p w, fst (host_command H (PageScreenshot p true) w) = None) ->
  forall (scenarios : list Scenario) (counts : nat * nat) (w : W H),
  exists counts' w' log,
    StatusRunner.run_scenarios H specPath counts scenarios w = (Ok counts', w', log) /\
    (fst counts' + snd counts' = fst counts + snd counts + length scenarios)%nat.
Proof.
  intros Hshot scenarios. induction scenarios as [|scenario rest IH]; intros counts w.
  - exists counts, w, []. split; [reflexivity | simpl; lia].
  - assert (Hone : exists c1 w1 log1,
               StatusRunner.run_scenario H specPath counts scenario w = (Ok c1, w1, log1) /\
               (fst c1 + snd c1 = S (fst counts + snd counts))%nat).
    { destruct (StatusRunner.run_steps H (scenario_steps scenario) w)
        as [[[[]|e] w1] log1] eqn:Hsteps.
      - rewrite (status_run_scenario_passed _ _ _ _ _ _ _ Hsteps).
        do 3 eexists. split; [reflexivity | simpl; lia].
      - rewrite (status_run_scenario_failed _ _ _ _ _ _ _ _ Hsteps).
        specialize (Hshot (StatusRunner.screenshotPath H specPath scenario) w1).
        destruct (host_command H _ w1) as [[e'|] w2]; [discriminate|].
        do 3 eexists. split; [reflexivity | simpl; lia]. }
    destruct Hone as (c1 & w1 & log1 & Hone & Hsum).
    destruct (IH c1 w1) as (c2 & w2 & log2 & Hrest & Hsum2).
    exists c2, w2, (log1 ++ log2)%list. split.
    + simpl. rewrite (bind_ok _ _ _ _ _ _ Hone), Hrest. reflexivity.
    + simpl. lia.
Qed.

(** What holds of a failing scenario.  Let a scenario's steps be [pre], then [bad],
    then [post], where the steps of [pre] complete and [bad] throws.  Then the
    loop over the steps ends with [bad]: outcome, world and log are those of
    [pre] and [bad] alone, whatever [post] is.  In the status-aware runner the
    failure handler then asks for a screenshot; if that call resolves, the
    failure counter goes up by exactly one, the pass counter is unchanged,
    and the loop goes on with the next scenario.  In [run-spec.js] there is no
    screenshot, and the same holds unconditionally. *)
Theorem first_failing_step_ends_scenario
  (H : Host) (specPath : string) (counts : nat * nat) (scenario : Scenario)
  (later : list Scenario) (pre post : list value) (bad : value)
  (w w1 w2 : W H) (log1 log2 : list event) (e : error) :
  scenario_steps scenario = (pre ++ bad :: post)%list ->
  (StatusRunner.run_steps H pre w = (Ok tt, w1, log1) ->
   StatusRunner.executeStep H bad w1 = (Throw e, w2, log2) ->
   let shot := PageScreenshot (StatusRunner.screenshotPath H specPath scenario) true in
   StatusRunner.run_steps H (scenario_steps scenario) w = (Throw e, w2, (log1 ++ log2)%list) /\
   forall w3 : W H,
     host_command H shot w2 = (None, w3) ->
     StatusRunner.run_scenario H specPath counts scenario w
     = (Ok (fst counts, S (snd counts)), w3, (log1 ++ log2 ++ [Did shot])%list) /\
     StatusRunner.run_scenarios H specPath counts (scenario :: later) w
     = (let '(r, w4, log4) :=
          StatusRunner.run_scenarios H specPath (fst counts, S (snd counts)) later w3 in
        (r, w4, (log1 ++ log2 ++ [Did shot] ++ log4)%list))) /\
  (SimpleRunner.run_steps H pre w = (Ok tt, w1, log1) ->
   SimpleRunner.executeStep H bad w1 = (Throw e, w2, log2) ->
   SimpleRunner.run_steps H (scenario_steps scenario) w = (Throw e, w2, (log1 ++ log2)%list) /\
   SimpleRunner.run_scenario H counts scenario w
   = (Ok (fst counts, S (snd counts)), w2, (log1 ++ log2)%list) /\
   SimpleRunner.run_scenarios H counts (scenario :: later) w
   = (let '(r, w4, log4) :=
        SimpleRunner.run_scenarios H (fst counts, S (snd counts)) later w2 in
      (r, w4, (log1 ++ log2 ++ log4)%list))).
Proof.
  intros Hsteps. split; intros Hpre Hbad.
  - intros shot.
    assert (Hrun : StatusRunner.run_steps H (scenario_steps scenario) w
                   = (Throw e, w2, (log1 ++ log2)%list))
      by (rewrite Hsteps; now apply status_run_steps_fail_fast with (w1 := w1)).
    split; [exact Hrun|]. intros w3 Hshot.
    assert (Hscenario : StatusRunner.run_scenario H specPath counts scenario w
                        = (Ok (fst counts, S (snd counts)), w3,
                           (log1 ++ log2 ++ [Did shot])%list)).
    { rewrite (status_run_scenario_failed _ _ _ _ _ _ _ _ Hrun). fold shot.
      rewrite Hshot. now rewrite <- app_assoc. }
    split; [exact Hscenario|].
    simpl StatusRunner.run_scenarios. rewrite (bind_ok _ _ _ _ _ _ Hscenario).
    destruct (StatusRunner.run_scenarios H specPath _ later w3) as [[r w4] log4].
    now rewrite <- !app_assoc.
  - assert (Hrun : SimpleRunner.run_steps H (scenario_steps scenario) w
                   = (Throw e, w2, (log1 ++ log2)%list))
      by (rewrite Hsteps; now apply simple_run_steps_fail_fast with (w1 := w1)).
    split; [exact Hrun|].
    pose proof (simple_run_scenario_failed _ counts _ _ _ _ _ Hrun) as Hscenario.
    split; [exact Hscenario|].
    simpl SimpleRunner.run_scenarios. rewrite (bind_ok _ _ _ _ _ _ Hscenario).
    destruct (SimpleRunner.run_scenarios H _ later w2) as [[r w4] log4].
    now rewrite <- !app_assoc.
Qed.

Lemma first_failing_step_ends_scenario_witness :
  StatusRunner.run_scenarios Fixture.host "/p/specs/login.yaml" (1, 0)%nat
    [Fixture.wrong_password; Fixture.landing] Fixture.start
  = (Ok (2, 1)%nat, "https://x.test/",
     [ Did (PageGoto (VStr "https://x.test/login"));
       Did (TextClick (VStr "Missing"));
       Did (PageScreenshot "/p/specs/../screenshots/login-wrong-password.png" true);
       Did (PageGoto (VStr "https://x.test/"));
       Did (TextWaitFor (VStr "Welcome") "visible" 5000) ]) /\
  SimpleRunner.run_scenarios Fixture.host (1, 0)%nat
    [Fixture.wrong_password; Fixture.landing] Fixture.start
  = (Ok (2, 1)%nat, "https://x.test/",
     [ Did (PageGoto (VStr "https://x.test/login"));
       Did (TextClick (VStr "Missing"));
       Did (PageGoto (VStr "https://x.test/"));
       ReadContent ]).
Proof.
  pose proof (first_failing_step_ends_scenario Fixture.host "/p/specs/login.yaml" (1, 0)%nat
                Fixture.wrong_password [Fixture.landing]
                [Fixture.step "goto" "https://x.test/login"]
                [Fixture.step "goto" "https://x.test/never"]
                (Fixture.step "click" "Missing")
                Fixture.start "https://x.test/login" "https://x.test/login"
                [Did (PageGoto (VStr "https://x.test/login"))]
                [Did (TextClick (VStr "Missing"))]
                (mkError "TimeoutError" "Timeout exceeded") eq_refl) as [Hstatus Hsimple].
  split.
  - destruct (Hstatus eq_refl eq_refl) as [_ Hshot].
    destruct (Hshot "https://x.test/login" eq_refl) as [_ Hloop].
    rewrite Hloop. reflexivity.
  - destruct (Hsimple eq_refl eq_refl) as (_ & _ & Hloop).
    rewrite Hloop. reflexivity.
Defined.

(** C3: the status-aware runner breaks it when the screenshot of the failure
    handler is rejected.  [failed++] stands behind the unguarded
    [await page.screenshot(...)] of the [catch] block.  The only step of the
    first scenario below throws; the screenshot then throws as well, out of
    the scenario loop: no failure is counted, and the second scenario is never
    started.  The handler of [run-spec.js], which takes no screenshot, counts
    the failure and goes on. *)
Lemma rejected_screenshot_leaves_failure_uncounted :
  StatusRunner.executeStep Fixture.host (Fixture.step "goto" "chrome://crash") Fixture.start
  = (Throw (Error "Page crashed"), "chrome://crash", [Did (PageGoto (VStr "chrome://crash"))]) /\
  StatusRunner.run_scenario Fixture.host "/p/specs/crash.yaml" (0, 0)%nat
    Fixture.crash_scenario Fixture.start
  = (Throw (Error "Target crashed"), "chrome://crash",
     [ Did (PageGoto (VStr "chrome://crash"));
       Did (PageScreenshot "/p/specs/../screenshots/crash-crash.png" true) ]) /\
  StatusRunner.run_scenarios Fixture.host "/p/specs/crash.yaml" (0, 0)%nat
    [Fixture.crash_scenario; Fixture.after_scenario] Fixture.start
  = (Throw (Error "Target crashed"), "chrome://crash",
     [ Did (PageGoto (VStr "chrome://crash"));
       Did (PageScreenshot "/p/specs/../screenshots/crash-crash.png" true) ]).
Proof. repeat split. Qed.

(** * Screenshots of failures *)


Lemma dash_runs_no_space (s : string) (in_run : bool) (c : ascii) :
  In c (list_ascii_of_string (dash_runs in_run s)) -> is_space c = false.
Proof.
  revert in_run. induction s as [|a s IH]; simpl; intros in_run Hin; [contradiction|].
  destruct (is_space a) eqn:Ha.
  - destruct in_run; [now apply (IH true)|].
    destruct Hin as [<-|Hin]; [reflexivity | now apply (IH true)].
  - destruct Hin as [<-|Hin]; [assumption | now apply (IH false)].
Qed.




Example slug_collapses_runs_of_white_space :
  toLowerCase (replace_whitespace "Request  reset link") = "request-reset-link".
Proof. reflexivity. Qed.

(** * Browser sessions *)

Section SessionNeutral.
Context {H : Host}.

Lemma neutral_ret {A : Type} (a : A) : session_neutral (@ret H A a).
Proof. intros w. reflexivity. Qed.

Lemma neutral_throw {A : Type} (e : error) : session_neutral (@throw H A e).
Proof. intros w. reflexivity. Qed.

Lemma neutral_lift {A : Type} (o : outcome A) : session_neutral (@lift H A o).
Proof. destruct o; [apply neutral_ret | apply neutral_throw]. Qed.

Lemma neutral_bind {A B : Type} (m : M H A) (k : A -> M H B) :
  session_neutral m -> (forall a, session_neutral (k a)) -> session_neutral (bind m k).
Proof.
  intros Hm Hk w. unfold bind. specialize (Hm w).
  destruct (m w) as [[[a|e] w1] log1]; simpl in Hm |- *; [|assumption].
  specialize (Hk a w1). destruct (k a w1) as [[r w2] log2]; simpl in Hk |- *.
  now rewrite forallb_app, Hm, Hk.
Qed.

Lemma neutral_try_catch {A : Type} (m : M H A) (h : error -> M H A) :
  session_neutral m -> (forall e, session_neutral (h e)) -> session_neutral (try_catch m h).
Proof.
  intros Hm Hh w. unfold try_catch. specialize (Hm w).
  destruct (m w) as [[[a|e] w1] log1]; simpl in Hm |- *; [assumption|].
  specialize (Hh e w1). destruct (h e w1) as [[r w2] log2]; simpl in Hh |- *.
  now rewrite forallb_app, Hm, Hh.
Qed.

Lemma neutral_run (c : command) :
  page_level (Did c) = true -> session_neutral (run H c).
Proof.
  intros Hc w. unfold run.
  destruct (host_command H c w) as [[e|] w']; cbn [snd forallb]; now rewrite Hc.
Qed.

Lemma neutral_ask (q : query) : session_neutral (ask H q).
Proof. intros w. unfold ask. now destruct (host_query H q w). Qed.

Lemma neutral_content : session_neutral (content H).
Proof. intros w. unfold content. now destruct (host_content H w). Qed.

Lemma neutral_url : session_neutral (url H).
Proof. intros w. reflexivity. Qed.

Lemma neutral_existsSync (p : string) : session_neutral (existsSync H p).
Proof. intros w. reflexivity. Qed.

Lemma neutral_if {A : Type} (b : bool) (m1 m2 : M H A) :
  session_neutral m1 -> session_neutral m2 -> session_neutral (if b then m1 else m2).
Proof. now destruct b. Qed.

Lemma neutral_switch {A : Type} (scrutinee : string) (cases : list (string * M H A))
  (fallback : M H A) :
  Forall (fun c => session_neutral (snd c)) cases -> session_neutral fallback ->
  session_neutral (switch scrutinee cases fallback).
Proof.
  intros Hcases Hfallback. induction Hcases as [|[label body] rest Hbody _ IH]; simpl.
  - assumption.
  - destruct (String.eqb scrutinee label); assumption.
Qed.
End SessionNeutral.

Create HintDb neutral.

#[local] Hint Resolve neutral_ret neutral_throw neutral_lift neutral_ask neutral_content
  neutral_url neutral_existsSync : neutral.

Ltac neutral :=
  repeat first
    [ apply neutral_bind; [|intro]
    | apply neutral_if
    | apply neutral_run; reflexivity
    | solve [auto with neutral] ].

Lemma status_executeStep_neutral (H : Host) (step : value) :
  session_neutral (StatusRunner.executeStep H step).
Proof.
  unfold StatusRunner.executeStep. apply neutral_bind; [auto with neutral|].
  intros [action payload]. apply neutral_switch; [|auto with neutral].
  unfold StatusRunner.cases. repeat (apply Forall_cons; [cbn [snd]; neutral|]).
  apply Forall_nil.
Qed.

Lemma status_run_steps_neutral (H : Host) (steps : list value) :
  session_neutral (StatusRunner.run_steps H steps).
Proof.
  induction steps as [|step steps IH]; simpl; [auto with neutral|].
  apply neutral_bind; [apply status_executeStep_neutral | intros _; exact IH].
Qed.

Lemma status_run_scenarios_neutral (H : Host) (specPath : string) (scenarios : list Scenario)
  (counts : nat * nat) :
  session_neutral (StatusRunner.run_scenarios H specPath counts scenarios).
Proof.
  revert counts. induction scenarios as [|scenario rest IH]; intros counts; simpl;
    [auto with neutral|].
  apply neutral_bind; [|intros counts'; apply IH].
  unfold StatusRunner.run_scenario. apply neutral_try_catch.
  - apply neutral_bind; [apply status_run_steps_neutral | auto with neutral].
  - intros e. neutral.
Qed.

Lemma neutral_counts (log : list event) :
  forallb page_level log = true -> launches log = 0%nat /\ closes log = 0%nat.
Proof.
  unfold launches, closes. induction log as [|e log IH]; simpl; [auto|].
  rewrite andb_true_iff. intros [He Hlog]. destruct (IH Hlog) as [IHl IHc].
  destruct e as [[]| | |]; simpl in *; try discriminate; auto.
Qed.

Lemma status_runSpec_body_log (H : Host) (specPath : string) (w : W H) :
  let '(r, w1, log1) := StatusRunner.runSpec_body H specPath w in
  closes log1 = 0%nat /\ launches log1 <= 1 /\ (forall result, r = Ok result -> launches log1 = 1%nat).
Proof.
  unfold StatusRunner.runSpec_body.
  unfold bind at 1. unfold load at 1.
  destruct (host_load H specPath w) as [spec|e]; [|cbn; intuition (auto; discriminate)].
  unfold bind at 1.
  destruct (StatusRunner.toUpperCase_receiver (js_or (spec_status spec) (VStr "draft")))
    as [status|e]; [|cbn; intuition (auto; discriminate)].
  cbn [lift]. unfold ret at 1. cbv iota beta.
  unfold bind at 1. unfold run at 1.
  destruct (host_command H (ChromiumLaunch (StatusRunner.headless H)) w) as [[e|] w0];
    [cbn; intuition (auto; discriminate)|].
  match goal with |- context [bind ?m ?k w0] =>
    assert (Hneutral : session_neutral (bind m k)) end.
  { neutral. apply status_run_scenarios_neutral. }
  match goal with |- context [bind ?m ?k w0] =>
    specialize (Hneutral w0); destruct (bind m k w0) as [[r w1] log1] end.
  cbn [snd] in Hneutral. apply neutral_counts in Hneutral. destruct Hneutral as [Hl Hc].
  cbn [app]. unfold launches, closes in *. cbn. rewrite Hl, Hc. auto.
Qed.

(** C5, as the code has it.  [runSpec] is its body followed by
    [await browser.close()], outside any [finally].  When the body completes —
    whatever the number of failed scenarios — its log holds exactly one launch
    and no close, and [runSpec] adds the single close as its last event.  When
    an error escapes the body (the spec does not load, its status is no
    string, or the launch, the page, the screenshots directory or a failure
    screenshot is refused), [runSpec] throws that error with the log of the
    body: at most one launch, and no close. *)
Theorem browser_closed_once_when_run_completes (H : Host) (specPath : string) (w : W H) :
  match StatusRunner.runSpec_body H specPath w with
  | (Ok result, w1, log1) =>
      launches log1 = 1%nat /\ closes log1 = 0%nat /\
      exists r w2, StatusRunner.runSpec H specPath w = (r, w2, (log1 ++ [Did BrowserClose])%list)
  | (Throw e, w1, log1) =>
      launches log1 <= 1 /\ closes log1 = 0%nat /\
      StatusRunner.runSpec H specPath w = (Throw e, w1, log1)
  end.
Proof.
  unfold StatusRunner.runSpec.
  destruct (StatusRunner.runSpec_body H specPath w) as [[[result|e] w1] log1] eqn:Hbody.
  all: pose proof (status_runSpec_body_log H specPath w) as Hlog; rewrite Hbody in Hlog.
  all: destruct Hlog as (Hcloses & Hlaunches & Hok).
  - repeat split; [now apply (Hok result) | assumption |].
    rewrite (bind_ok _ _ _ _ _ _ Hbody). unfold bind.
    destruct (run_log (H := H) BrowserClose w1) as (r & w2 & ->).
    destruct r as [[]|e]; cbn; rewrite ?app_nil_r; eauto.
  - repeat split; [assumption | assumption |].
    now apply bind_throw.
Qed.

(** C5 as stated fails on an error that escapes the scenario loop: the page
    crashes in the first scenario, the failure screenshot is refused, and
    [runSpec] throws with a browser launched and never closed. *)
Lemma crashed_run_never_closes_browser :
  StatusRunner.runSpec Fixture.host "/p/specs/crash.yaml" Fixture.start
  = (Throw (Error "Target crashed"), "chrome://crash",
     [ Loaded "/p/specs/crash.yaml";
       Did (ChromiumLaunch true);
       Did BrowserNewPage;
       Did (PageGoto (VStr "chrome://crash"));
       Did (PageScreenshot "/p/specs/../screenshots/crash-crash.png" true) ]) /\
  launches (snd (StatusRunner.runSpec Fixture.host "/p/specs/crash.yaml" Fixture.start)) = 1%nat /\
  closes (snd (StatusRunner.runSpec Fixture.host "/p/specs/crash.yaml" Fixture.start)) = 0%nat.
Proof. repeat split. Qed.

(** * The summary and the exit code *)

(** One iteration of the loop of [main] never throws: it absorbs what
    [runSpec] returned or threw into the summary. *)
Lemma run_file_absorbs (H : Host) (results : StatusRunner.Results) (specFile : string) (w : W H) :
  StatusRunner.run_file H results specFile w =
  (let '(r, w', log) := StatusRunner.runSpec H specFile w in (Ok (absorb results r), w', log)).
Proof.
  unfold StatusRunner.run_file.
  destruct (StatusRunner.runSpec H specFile w) as [[[result|e] w'] log] eqn:Hrun.
  - unfold absorb.
    destruct (StatusRunner.add_result results result) as [results'|e] eqn:Hadd.
    + apply try_catch_ok. rewrite (bind_ok _ _ _ _ _ _ Hrun), Hadd. cbn.
      now rewrite app_nil_r.
    + rewrite (try_catch_throw _ _ w w' e log).
      * cbn. now rewrite app_nil_r.
      * rewrite (bind_ok _ _ _ _ _ _ Hrun), Hadd. cbn. now rewrite app_nil_r.
  - rewrite (try_catch_throw _ _ w w' e log) by (now apply bind_throw).
    cbn. now rewrite app_nil_r.
Qed.

(** The loop of [main] folds [absorb] over the outcomes of the spec runs. *)
Lemma main_loop_folds (H : Host) (specFiles : list string) (results : StatusRunner.Results)
  (w : W H) :
  exists w' log,
    StatusRunner.main_loop H specFiles results w
    = (Ok (fold_left absorb (StatusRunner.spec_outcomes H specFiles w) results), w', log).
Proof.
  revert results w. induction specFiles as [|specFile rest IH]; intros results w; simpl.
  - now exists w, [].
  - unfold bind. rewrite run_file_absorbs.
    destruct (StatusRunner.runSpec H specFile w) as [[r w1] log1].
    destruct (IH (absorb results r) w1) as (w' & log & ->). eauto.
Qed.

Lemma absorb_active_failed (results : StatusRunner.Results) (o : outcome StatusRunner.SpecResult) :
  active_failed (absorb results o) = (active_failed results + active_failures o)%nat.
Proof.
  unfold absorb, active_failures, active_failed, StatusRunner.add_result.
  destruct o as [r|e]; [|cbn; lia].
  unfold StatusRunner.results_slot.
  destruct (String.eqb (StatusRunner.status r) "active"); [cbn; try lia; try reflexivity|].
  destruct (String.eqb (StatusRunner.status r) "draft"); [cbn; try lia; try reflexivity|].
  destruct (String.eqb (StatusRunner.status r) "__proto__"); [cbn; try lia; try reflexivity|].
  destruct (StatusRunner.mem (StatusRunner.status r) StatusRunner.object_prototype_keys);
    [cbn; try lia; try reflexivity|].
  destruct (StatusRunner.prototype_has_counters results
            && StatusRunner.mem (StatusRunner.status r) ["passed"; "failed"]);
    cbn; try lia; try reflexivity.
Qed.

Lemma fold_absorb_active_failed (outcomes : list (outcome StatusRunner.SpecResult))
  (results : StatusRunner.Results) :
  active_failed (fold_left absorb outcomes results)
  = (active_failed results + list_sum (map active_failures outcomes))%nat.
Proof.
  revert results. induction outcomes as [|o rest IH]; intros results; simpl; [lia|].
  rewrite IH, absorb_active_failed. lia.
Qed.


Lemma exit_code_cases (results : StatusRunner.Results) :
  StatusRunner.exit_code results = if (0 <? active_failed results)%nat then 1%nat else 0%nat.
Proof.
  unfold StatusRunner.exit_code, active_failed.
  destruct (0 <? _)%nat; [reflexivity|]. now destruct (0 <? _)%nat.
Qed.


Lemma draft_failures_flag (results : StatusRunner.Results) (o : outcome StatusRunner.SpecResult) :
  draft_failures results o
  = draft_failures
      (StatusRunner.mkResults StatusRunner.Bucket.empty StatusRunner.Bucket.empty
         (StatusRunner.prototype_has_counters results)) o.
Proof. destruct o as [r|e]; reflexivity. Qed.

Lemma absorb_flag (results : StatusRunner.Results) (o : outcome StatusRunner.SpecResult) :
  StatusRunner.prototype_has_counters (absorb results o)
  = StatusRunner.prototype_has_counters results || reaches_prototype o.
Proof.
  unfold absorb, reaches_prototype, StatusRunner.add_result.
  destruct o as [r|e]; [|cbn; now rewrite orb_false_r].
  unfold StatusRunner.results_slot.
  destruct (String.eqb_spec (StatusRunner.status r) "active") as [Heq|_];
    [rewrite Heq; cbn; now rewrite orb_false_r|].
  destruct (String.eqb_spec (StatusRunner.status r) "draft") as [Heq|_];
    [rewrite Heq; cbn; now rewrite orb_false_r|].
  destruct (String.eqb (StatusRunner.status r) "__proto__");
    [cbn; now rewrite orb_true_r|].
  destruct (StatusRunner.mem (StatusRunner.status r) StatusRunner.object_prototype_keys);
    [cbn; now rewrite orb_false_r|].
  destruct (StatusRunner.prototype_has_counters results
            && StatusRunner.mem (StatusRunner.status r) ["passed"; "failed"]);
    cbn; now rewrite orb_false_r.
Qed.

Lemma absorb_draft_failed (results : StatusRunner.Results) (o : outcome StatusRunner.SpecResult) :
  draft_failed (absorb results o) = (draft_failed results + draft_failures results o)%nat.
Proof.
  unfold absorb, draft_failures, draft_failed, StatusRunner.add_result.
  destruct o as [r|e]; [|cbn; lia].
  unfold StatusRunner.results_slot.
  destruct (String.eqb (StatusRunner.status r) "active"); [cbn; try lia; try reflexivity|].
  destruct (String.eqb (StatusRunner.status r) "draft"); [cbn; try lia; try reflexivity|].
  destruct (String.eqb (StatusRunner.status r) "__proto__"); [cbn; try lia; try reflexivity|].
  destruct (StatusRunner.mem (StatusRunner.status r) StatusRunner.object_prototype_keys);
    [cbn; try lia; try reflexivity|].
  destruct (StatusRunner.prototype_has_counters results
            && StatusRunner.mem (StatusRunner.status r) ["passed"; "failed"]);
    cbn; try lia; try reflexivity.
Qed.

Lemma fold_absorb_draft_failed (outcomes : list (outcome StatusRunner.SpecResult))
  (results : StatusRunner.Results) :
  draft_failed (fold_left absorb outcomes results)
  = (draft_failed results
     + draft_failures_from (StatusRunner.prototype_has_counters results) outcomes)%nat.
Proof.
  revert results. induction outcomes as [|o rest IH]; intros results; simpl; [lia|].
  rewrite IH, absorb_draft_failed, absorb_flag, <- draft_failures_flag. lia.
Qed.

Lemma existsb_active_failure (outcomes : list (outcome StatusRunner.SpecResult)) :
  existsb active_failure outcomes = (0 <? list_sum (map active_failures outcomes))%nat.
Proof.
  induction outcomes as [|o rest IH]; simpl; [reflexivity|].
  rewrite IH. destruct o as [r|e]; simpl; [|reflexivity].
  destruct (String.eqb (StatusRunner.status r) "active"); simpl; [|reflexivity].
  destruct (StatusRunner.failed r) as [|n]; simpl; [reflexivity|].
  reflexivity.
Qed.




(** An active spec whose only scenario passes: one pass, no failure, exit 0. *)
Example passing_active_spec_exits_zero :
  fst (fst (StatusRunner.runSpec Fixture.host "/p/specs/home.yaml" Fixture.start))
  = Ok (StatusRunner.mkSpecResult 1 0 "active") /\
  fst (fst (StatusRunner.main Fixture.host ["/p/specs/home.yaml"] Fixture.start)) = Ok 0%nat.
Proof. split; reflexivity. Qed.

(** C2 as stated fails: a spec file that cannot be loaded is counted as a
    draft failure, and draft failures do not set the exit code. *)
Lemma unreadable_spec_exits_zero :
  host_load Fixture.host "/p/specs/absent.yaml" Fixture.start
  = Throw (Error "ENOENT: no such file or directory, open '/p/specs/absent.yaml'") /\
  StatusRunner.main_loop Fixture.host ["/p/specs/absent.yaml"] StatusRunner.empty_results
    Fixture.start
  = (Ok (StatusRunner.mkResults (StatusRunner.Bucket.mk 0 0) (StatusRunner.Bucket.mk 0 1) false),
     Fixture.start, [Loaded "/p/specs/absent.yaml"]) /\
  StatusRunner.main Fixture.host ["/p/specs/absent.yaml"] Fixture.start
  = (Ok 0%nat, Fixture.start, [Loaded "/p/specs/absent.yaml"]).
Proof. repeat split. Qed.

(** C2, as the code has it.  In an invocation with at least one spec file,
    the loop of [main] always ends with a summary, and the process exits with
    1 exactly when some returned result has status [active] and a failed
    scenario, and with 0 otherwise.  The failures of the active bucket are
    those of the active results.  The failures of the draft bucket are those
    of the draft results, plus exactly one for every spec run that throws — a
    spec that fails to load or parse among them — and one for every returned
    result whose status finds nothing in the summary at that moment; the exit
    code does not look at them. *)
Theorem load_failures_are_draft_failures_only (H : Host) (args : list string) (w : W H) :
  args <> [] ->
  let outcomes := StatusRunner.spec_outcomes H (map (path_resolve H) args) w in
  exists summary w' log,
    StatusRunner.main_loop H (map (path_resolve H) args) StatusRunner.empty_results w
    = (Ok summary, w', log) /\
    StatusRunner.main H args w
    = (Ok (if existsb active_failure outcomes then 1%nat else 0%nat), w', log) /\
    draft_failed summary = draft_failures_from false outcomes /\
    active_failed summary = list_sum (map active_failures outcomes).
Proof.
  intros Hargs outcomes.
  destruct (main_loop_folds H (map (path_resolve H) args) StatusRunner.empty_results w)
    as (w' & log & Hloop). fold outcomes in Hloop.
  exists (fold_left absorb outcomes StatusRunner.empty_results), w', log.
  split; [exact Hloop|]. split.
  - destruct args as [|arg rest]; [contradiction|].
    unfold StatusRunner.main. rewrite (bind_ok _ _ _ _ _ _ Hloop). cbn [ret].
    rewrite app_nil_r, exit_code_cases, fold_absorb_active_failed, existsb_active_failure.
    reflexivity.
  - now rewrite fold_absorb_draft_failed, fold_absorb_active_failed.
Qed.

Lemma load_failures_are_draft_failures_only_witness :
  exists summary w' log,
    StatusRunner.main_loop Fixture.host ["/p/specs/absent.yaml"; "/p/specs/home.yaml"]
      StatusRunner.empty_results Fixture.start
    = (Ok summary, w', log) /\
    StatusRunner.main Fixture.host ["/p/specs/absent.yaml"; "/p/specs/home.yaml"] Fixture.start
    = (Ok 0%nat, w', log) /\
    draft_failed summary = 1%nat /\
    active_failed summary = 0%nat.
Proof.
  exact (load_failures_are_draft_failures_only Fixture.host
           ["/p/specs/absent.yaml"; "/p/specs/home.yaml"] Fixture.start
           ltac:(discriminate)).
Defined.

(** * Specs that do not load *)

Lemma status_runSpec_load_throws (H : Host) (specFile : string) (w : W H) (e : error) :
  host_load H specFile w = Throw e ->
  StatusRunner.runSpec H specFile w = (Throw e, w, [Loaded specFile]).
Proof.
  intros Hload. unfold StatusRunner.runSpec. apply bind_throw.
  unfold StatusRunner.runSpec_body. apply bind_throw.
  unfold load. now rewrite Hload.
Qed.

(** C4. When loading or parsing a spec file throws, [runSpec] throws the
    same error having done nothing but the attempt to load: no browser is
    launched and no step is run.  The loop of [main] then adds exactly one to
    the failures of the draft bucket, leaves the three other counters alone,
    and goes on with the remaining spec files from the same world.  The
    status the file may declare plays no part. *)
Theorem unloadable_spec_is_one_draft_failure
  (H : Host) (specFile : string) (rest : list string) (results : StatusRunner.Results)
  (w : W H) (e : error) :
  host_load H specFile w = Throw e ->
  StatusRunner.runSpec H specFile w = (Throw e, w, [Loaded specFile]) /\
  StatusRunner.main_loop H (specFile :: rest) results w
  = (let '(r, w', log) :=
       StatusRunner.main_loop H rest
         (StatusRunner.mkResults
            (StatusRunner.active results)
            (StatusRunner.Bucket.mk
               (StatusRunner.Bucket.passed (StatusRunner.draft results))
               (S (StatusRunner.Bucket.failed (StatusRunner.draft results))))
            (StatusRunner.prototype_has_counters results))
         w in
     (r, w', Loaded specFile :: log)).
Proof.
  intros Hload. pose proof (status_runSpec_load_throws H specFile w e Hload) as Hrun.
  split; [exact Hrun|].
  simpl StatusRunner.main_loop. unfold bind at 1.
  rewrite run_file_absorbs, Hrun. cbn [absorb]. unfold StatusRunner.draft_failed_incr.
  destruct (StatusRunner.main_loop H rest _ w) as [[r w'] log]. reflexivity.
Qed.

Lemma unloadable_spec_is_one_draft_failure_witness :
  StatusRunner.runSpec Fixture.host "/p/specs/absent.yaml" Fixture.start
  = (Throw (Error "ENOENT: no such file or directory, open '/p/specs/absent.yaml'"),
     Fixture.start, [Loaded "/p/specs/absent.yaml"]) /\
  fst (fst (StatusRunner.main_loop Fixture.host ["/p/specs/absent.yaml"; "/p/specs/home.yaml"]
              StatusRunner.empty_results Fixture.start))
  = Ok (StatusRunner.mkResults (StatusRunner.Bucket.mk 1 0) (StatusRunner.Bucket.mk 0 1) false).
Proof.
  destruct (unloadable_spec_is_one_draft_failure Fixture.host "/p/specs/absent.yaml"
              ["/p/specs/home.yaml"] StatusRunner.empty_results Fixture.start
              (Error "ENOENT: no such file or directory, open '/p/specs/absent.yaml'")
              eq_refl) as [Hrun Hloop].
  split; [exact Hrun|]. rewrite Hloop. reflexivity.
Defined.

(** * The status of a spec *)

Lemma bind_ok_inv {H : Host} {A B : Type} (m : M H A) (k : A -> M H B) (w w2 : W H) (b : B)
  (log : list event) :
  bind m k w = (Ok b, w2, log) ->
  exists a w1 log1 log2,
    m w = (Ok a, w1, log1) /\ k a w1 = (Ok b, w2, log2) /\ log = (log1 ++ log2)%list.
Proof.
  unfold bind. destruct (m w) as [[[a|e] w1] log1]; [|discriminate].
  destruct (k a w1) as [[r w2'] log2] eqn:Hk. intros Heq. injection Heq as -> -> <-.
  exists a, w1, log1, log2. auto.
Qed.

(** A run that returns read its status off the loaded spec. *)
Lemma status_runSpec_status (H : Host) (specFile : string) (w w1 : W H)
  (r : StatusRunner.SpecResult) (log : list event) :
  StatusRunner.runSpec H specFile w = (Ok r, w1, log) ->
  exists spec,
    host_load H specFile w = Ok spec /\
    StatusRunner.toUpperCase_receiver (js_or (spec_status spec) (VStr "draft"))
    = Ok (StatusRunner.status r).
Proof.
  intros Hrun. unfold StatusRunner.runSpec in Hrun.
  apply bind_ok_inv in Hrun. destruct Hrun as (r0 & w0 & log0 & log0' & Hbody & Hclose & _).
  apply bind_ok_inv in Hclose. destruct Hclose as (u & wc & lc & lc' & _ & Hret & _).
  unfold ret in Hret. injection Hret as Hr _ _. subst r0.
  unfold StatusRunner.runSpec_body in Hbody.
  apply bind_ok_inv in Hbody. destruct Hbody as (spec & wa & la & la' & Hload & Hbody & _).
  unfold load in Hload. injection Hload as Hload Hw _. subst wa.
  exists spec. split; [assumption|].
  apply bind_ok_inv in Hbody. destruct Hbody as (status & wb & lb & lb' & Hstatus & Hbody & _).
  destruct (StatusRunner.toUpperCase_receiver _) as [s|e]; [|discriminate].
  injection Hstatus as Hs _ _. subst s.
  repeat (apply bind_ok_inv in Hbody;
          destruct Hbody as (? & ? & ? & ? & _ & Hbody & _)).
  injection Hbody as <- _ _. reflexivity.
Qed.

(** A run whose spec loads with a status that passes the string check goes
    on to launch the browser. *)
Lemma status_runSpec_launches (H : Host) (specFile : string) (spec : Spec) (status : string)
  (w : W H) :
  host_load H specFile w = Ok spec ->
  StatusRunner.toUpperCase_receiver (js_or (spec_status spec) (VStr "draft")) = Ok status ->
  exists r w1 tail,
    StatusRunner.runSpec H specFile w
    = (r, w1, Loaded specFile :: Did (ChromiumLaunch (StatusRunner.headless H)) :: tail).
Proof.
  intros Hload Hstatus.
  assert (Hbody : exists r w1 tail,
             StatusRunner.runSpec_body H specFile w
             = (r, w1, Loaded specFile :: Did (ChromiumLaunch (StatusRunner.headless H)) :: tail)).
  { unfold StatusRunner.runSpec_body.
    rewrite (bind_ok _ _ w w spec [Loaded specFile]) by (unfold load; now rewrite Hload).
    rewrite Hstatus.
    rewrite (bind_ok _ _ w w status []) by reflexivity.
    destruct (run_log (H := H) (ChromiumLaunch (StatusRunner.headless H)) w)
      as (r0 & w0 & Hlaunch).
    destruct r0 as [[]|e].
    - rewrite (bind_ok _ _ _ _ _ _ Hlaunch).
      match goal with |- context [bind ?m ?k w0] =>
        destruct (bind m k w0) as [[r w1] tail] end.
      cbn. eauto.
    - rewrite (bind_throw _ _ _ _ _ _ Hlaunch). cbn. eauto. }
  destruct Hbody as (r & w1 & tail & Hbody). unfold StatusRunner.runSpec.
  destruct r as [result|e].
  - rewrite (bind_ok _ _ _ _ _ _ Hbody).
    match goal with |- context [bind ?m ?k w1] =>
      destruct (bind m k w1) as [[r2 w2] log2] end.
    cbn. eauto.
  - rewrite (bind_throw _ _ _ _ _ _ Hbody). eauto.
Qed.

(** C6, as the code has it.  Let a spec load.  If its status is absent (or
    otherwise falsy), the run goes past the status check to the launch of the
    browser, every result it returns has status [draft], and the loop of
    [main] adds the counts of that result to the draft bucket.  If its status
    is truthy and no string, the run throws before a browser is launched and
    the spec counts as one draft failure.  If its status is a non-empty
    string, a result the run returns carries that string as it is, with no
    validation; when the string is neither [active] nor [draft], the summary
    lookup either finds nothing, so that the spec counts as exactly one draft
    failure and its scenario counts are dropped, or finds something every
    object inherits, so that the counts are dropped and both buckets are left
    as they were (with [__proto__], the counts land on [Object.prototype], and
    [passed] and [failed] are inherited keys from then on). *)
Theorem status_default_and_unknown_values
  (H : Host) (specFile : string) (spec : Spec) (results : StatusRunner.Results) (w : W H) :
  host_load H specFile w = Ok spec ->
  let declared := spec_status spec in
  (truthy declared = false ->
   (exists r w1 tail,
      StatusRunner.runSpec H specFile w
      = (r, w1, Loaded specFile :: Did (ChromiumLaunch (StatusRunner.headless H)) :: tail)) /\
   forall r w1 log,
     StatusRunner.runSpec H specFile w = (Ok r, w1, log) ->
     StatusRunner.status r = "draft" /\
     StatusRunner.run_file H results specFile w
     = (Ok (StatusRunner.mkResults
              (StatusRunner.active results)
              (StatusRunner.Bucket.mk
                 (StatusRunner.Bucket.passed (StatusRunner.draft results) + StatusRunner.passed r)
                 (StatusRunner.Bucket.failed (StatusRunner.draft results) + StatusRunner.failed r))
              (StatusRunner.prototype_has_counters results)), w1, log)) /\
  (truthy declared = true -> is_string declared = false ->
   StatusRunner.run_file H results specFile w
   = (Ok (StatusRunner.draft_failed_incr results), w, [Loaded specFile])) /\
  (forall s r w1 log,
     declared = VStr s -> s <> "" ->
     StatusRunner.runSpec H specFile w = (Ok r, w1, log) ->
     StatusRunner.status r = s /\
     (s <> "active" -> s <> "draft" ->
      StatusRunner.run_file H results specFile w
      = (Ok (if String.eqb s "__proto__"
             then StatusRunner.mkResults
                    (StatusRunner.active results) (StatusRunner.draft results) true
             else if StatusRunner.mem s StatusRunner.object_prototype_keys
                     || (StatusRunner.prototype_has_counters results
                         && StatusRunner.mem s ["passed"; "failed"])
             then results
             else StatusRunner.draft_failed_incr results), w1, log))).
Proof.
  intros Hload declared.
  assert (Hcarried : forall s r w1 log,
             declared = VStr s -> s <> "" ->
             StatusRunner.runSpec H specFile w = (Ok r, w1, log) -> StatusRunner.status r = s).
  { intros s r w1 log Hdeclared Hnonempty Hrun.
    destruct (status_runSpec_status H _ _ _ _ _ Hrun) as (spec' & Hload' & Hstatus).
    rewrite Hload in Hload'. injection Hload' as <-.
    fold declared in Hstatus. rewrite Hdeclared in Hstatus.
    unfold js_or in Hstatus. simpl in Hstatus.
    destruct (String.eqb_spec s ""); [contradiction|]. simpl in Hstatus.
    now injection Hstatus as <-. }
  split; [|split].
  - intros Hfalsy. split.
    + apply (status_runSpec_launches H specFile spec "draft" w Hload).
      unfold js_or. fold declared. now rewrite Hfalsy.
    + intros r w1 log Hrun.
      destruct (status_runSpec_status H _ _ _ _ _ Hrun) as (spec' & Hload' & Hstatus).
      rewrite Hload in Hload'. injection Hload' as <-.
      unfold js_or in Hstatus. fold declared in Hstatus. rewrite Hfalsy in Hstatus.
      injection Hstatus as Hstatus. split; [now symmetry|].
      rewrite run_file_absorbs, Hrun. unfold absorb, StatusRunner.add_result.
      now rewrite <- Hstatus.
  - intros Htruthy Hnostring.
    assert (Hrun : exists e, StatusRunner.runSpec H specFile w = (Throw e, w, [Loaded specFile])).
    { exists (TypeError "status.toUpperCase is not a function").
      unfold StatusRunner.runSpec. apply bind_throw.
      unfold StatusRunner.runSpec_body.
      rewrite (bind_ok _ _ w w spec [Loaded specFile]) by (unfold load; now rewrite Hload).
      rewrite (bind_throw _ _ w w (TypeError "status.toUpperCase is not a function") []);
        [reflexivity|].
      unfold js_or. fold declared. rewrite Htruthy.
      destruct declared; try discriminate; reflexivity. }
    destruct Hrun as [e Hrun]. rewrite run_file_absorbs, Hrun. reflexivity.
  - intros s r w1 log Hdeclared Hnonempty Hrun.
    pose proof (Hcarried s r w1 log Hdeclared Hnonempty Hrun) as Hs.
    split; [exact Hs|]. intros Hactive Hdraft.
    rewrite run_file_absorbs, Hrun.
    unfold absorb, StatusRunner.add_result, StatusRunner.results_slot. rewrite Hs.
    destruct (String.eqb_spec s "active"); [contradiction|].
    destruct (String.eqb_spec s "draft"); [contradiction|].
    destruct (String.eqb s "__proto__"); [reflexivity|].
    destruct (StatusRunner.mem s StatusRunner.object_prototype_keys); [reflexivity|].
    now destruct (StatusRunner.prototype_has_counters results
                  && StatusRunner.mem s ["passed"; "failed"]).
Qed.

Lemma status_default_and_unknown_values_witness :
  StatusRunner.run_file Fixture.host StatusRunner.empty_results "/p/specs/reset.yaml"
    Fixture.start
  = (Ok (StatusRunner.mkResults (StatusRunner.Bucket.mk 0 0) (StatusRunner.Bucket.mk 0 1) false),
     "https://x.test/reset",
     [ Loaded "/p/specs/reset.yaml"; Did (ChromiumLaunch true); Did BrowserNewPage;
       Did (PageGoto (VStr "https://x.test/reset"));
       Did (TextClick (VStr "Reset"));
       Did (PageScreenshot "/p/specs/../screenshots/reset-request-reset-link.png" true);
       Did BrowserClose ]) /\
  StatusRunner.run_file Fixture.host StatusRunner.empty_results "/p/specs/numeric.yaml"
    Fixture.start
  = (Ok (StatusRunner.draft_failed_incr StatusRunner.empty_results), Fixture.start,
     [Loaded "/p/specs/numeric.yaml"]) /\
  StatusRunner.run_file Fixture.host StatusRunner.empty_results "/p/specs/wip.yaml"
    Fixture.start
  = (Ok (StatusRunner.draft_failed_incr StatusRunner.empty_results), Fixture.start,
     [ Loaded "/p/specs/wip.yaml"; Did (ChromiumLaunch true); Did BrowserNewPage;
       Did (TextClick (VStr "Missing"));
       Did (PageScreenshot "/p/specs/../screenshots/wip-pending.png" true);
       Did BrowserClose ]).
Proof.
  split; [|split].
  - exact (proj2 (proj2 (proj1 (status_default_and_unknown_values Fixture.host
                                  "/p/specs/reset.yaml" Fixture.reset_spec
                                  StatusRunner.empty_results Fixture.start eq_refl)
                           eq_refl)
                    (StatusRunner.mkSpecResult 0 1 "draft") "https://x.test/reset" _ eq_refl)).
  - exact (proj1 (proj2 (status_default_and_unknown_values Fixture.host "/p/specs/numeric.yaml"
                           Fixture.numeric_status_spec StatusRunner.empty_results
                           Fixture.start eq_refl))
             eq_refl eq_refl).
  - refine (proj2 (proj2 (proj2 (status_default_and_unknown_values Fixture.host
                                   "/p/specs/wip.yaml" Fixture.wip_spec
                                   StatusRunner.empty_results Fixture.start eq_refl))
                     "wip" (StatusRunner.mkSpecResult 0 1 "wip") Fixture.start _
                     eq_refl _ eq_refl) _ _); discriminate.
Defined.

Example absent_status_runs_as_draft :
  fst (fst (StatusRunner.runSpec Fixture.host "/p/specs/reset.yaml" Fixture.start))
  = Ok (StatusRunner.mkSpecResult 0 1 "draft").
Proof. reflexivity. Qed.

(** C6 as stated fails on a status that names a property every object
    inherits.  The spec below declares [status: constructor] and its only
    scenario fails.  The run returns a result that carries the status as it
    is, and the loop of [main] absorbs it without an error and without
    touching either bucket: the value is neither rejected nor defaulted. *)
Lemma inherited_key_status_slips_through_summary :
  StatusRunner.runSpec Fixture.host "/p/specs/constructor.yaml" Fixture.start
  = (Ok (StatusRunner.mkSpecResult 0 1 "constructor"), Fixture.start,
     [ Loaded "/p/specs/constructor.yaml"; Did (ChromiumLaunch true); Did BrowserNewPage;
       Did (TextClick (VStr "Missing"));
       Did (PageScreenshot "/p/specs/../screenshots/constructor-pending.png" true);
       Did BrowserClose ]) /\
  StatusRunner.add_result StatusRunner.empty_results
    (StatusRunner.mkSpecResult 0 1 "constructor")
  = Ok StatusRunner.empty_results /\
  fst (fst (StatusRunner.main_loop Fixture.host ["/p/specs/constructor.yaml"]
              StatusRunner.empty_results Fixture.start))
  = Ok StatusRunner.empty_results /\
  fst (fst (StatusRunner.runSpec Fixture.host "/p/specs/wip.yaml" Fixture.start))
  = Ok (StatusRunner.mkSpecResult 0 1 "wip").
Proof. repeat split. Qed.


(** Once a spec of status [__proto__] has been absorbed, [passed] and
    [failed] are keys every object inherits: a later spec of status [passed]
    is no longer a draft failure.  Alone, it is one. *)
Example prototype_counters_let_passed_status_through :
  fst (fst (StatusRunner.main_loop Fixture.host ["/p/specs/proto.yaml"; "/p/specs/passed.yaml"]
              StatusRunner.empty_results Fixture.start))
  = Ok (StatusRunner.mkResults (StatusRunner.Bucket.mk 0 0) (StatusRunner.Bucket.mk 0 0) true) /\
  fst (fst (StatusRunner.main_loop Fixture.host ["/p/specs/passed.yaml"]
              StatusRunner.empty_results Fixture.start))
  = Ok (StatusRunner.mkResults (StatusRunner.Bucket.mk 0 0) (StatusRunner.Bucket.mk 0 1) false).
Proof. split; reflexivity. Qed.

(** * Further properties of the two runners *)

(** ** Steps that are no mapping, payloads that are no record *)

(** X1. A step that is not a mapping with at least one entry always throws,
    in both runners, before any call into the host.  A non-empty string and a
    non-empty sequence have a first entry, of key [0]: they throw the [Error]
    [Unknown action: 0].  A number, a boolean, the empty string, the empty
    sequence and the empty mapping have no entry to destructure, and [null]
    and [undefined] cannot be enumerated: they throw a [TypeError]. *)
Theorem step_that_is_no_mapping_is_rejected (H : Host) (step : value) (w : W H) :
  is_mapping step = false ->
  exists e,
    StatusRunner.executeStep H step w = (Throw e, w, []) /\
    SimpleRunner.executeStep H step w = (Throw e, w, []) /\
    match step with
    | VStr (String _ _) | VArr (_ :: _) => e = Error "Unknown action: 0"
    | VUndefined | VNull => e = TypeError "Cannot convert undefined or null to object"
    | _ => e = TypeError "undefined is not iterable"
    end.
Proof.
  intros Hstep.
  destruct step as [| | b | z | s | items | entries].
  - eexists. repeat split.
  - eexists. repeat split.
  - eexists. repeat split.
  - eexists. repeat split.
  - destruct s as [|c s]; eexists; repeat split.
  - destruct items as [|x items]; eexists; repeat split.
  - destruct entries as [|kv entries]; [|discriminate].
    eexists. repeat split.
Qed.

Lemma step_that_is_no_mapping_is_rejected_witness :
  exists e,
    StatusRunner.executeStep Fixture.host (VStr "goto") Fixture.start
    = (Throw e, Fixture.start, []) /\
    SimpleRunner.executeStep Fixture.host (VStr "goto") Fixture.start
    = (Throw e, Fixture.start, []) /\
    e = Error "Unknown action: 0".
Proof.
  exact (step_that_is_no_mapping_is_rejected Fixture.host (VStr "goto") Fixture.start eq_refl).
Defined.

(** X2. The actions that read a field of their payload throw a [TypeError]
    before any call into the host when the payload is [null] or absent:
    [click], [fill], [fill_field] and [select] in the status-aware runner,
    [click] and [fill] in [run-spec.js]. *)
Theorem field_of_null_payload_raises_type_error
  (H : Host) (action : string) (payload : value) (w : W H) :
  payload = VNull \/ payload = VUndefined ->
  (In action ["click"; "fill"; "fill_field"; "select"] ->
   exists e,
     StatusRunner.executeStep H (VObj [(action, payload)]) w = (Throw e, w, []) /\
     error_name e = "TypeError") /\
  (In action ["click"; "fill"] ->
   exists e,
     SimpleRunner.executeStep H (VObj [(action, payload)]) w = (Throw e, w, []) /\
     error_name e = "TypeError").
Proof.
  intros Hpayload. split; intros Haction; simpl in Haction;
    repeat (destruct Haction as [<-|Haction]; [|]); try contradiction;
    destruct Hpayload as [->| ->]; eexists; split; reflexivity.
Qed.

Lemma field_of_null_payload_raises_type_error_witness :
  (exists e,
     StatusRunner.executeStep Fixture.host (VObj [("fill_field", VNull)]) Fixture.start
     = (Throw e, Fixture.start, []) /\ error_name e = "TypeError") /\
  (exists e,
     SimpleRunner.executeStep Fixture.host (VObj [("fill", VNull)]) Fixture.start
     = (Throw e, Fixture.start, []) /\ error_name e = "TypeError").
Proof.
  split.
  - apply (field_of_null_payload_raises_type_error Fixture.host "fill_field" VNull Fixture.start);
      [now left | simpl; tauto].
  - apply (field_of_null_payload_raises_type_error Fixture.host "fill" VNull Fixture.start);
      [now left | simpl; tauto].
Defined.

(** ** How much a step can do *)

Section CallBounds.
Context {H : Host}.

Lemma most_ret {A : Type} (n : nat) (a : A) : calls_at_most n (@ret H A a).
Proof. intros w. simpl. lia. Qed.

Lemma most_throw {A : Type} (n : nat) (e : error) : calls_at_most n (@throw H A e).
Proof. intros w. simpl. lia. Qed.

Lemma most_lift {A : Type} (n : nat) (o : outcome A) : calls_at_most n (@lift H A o).
Proof. destruct o; [apply most_ret | apply most_throw]. Qed.

Lemma most_url (n : nat) : calls_at_most n (url H).
Proof. intros w. simpl. lia. Qed.

Lemma most_existsSync (n : nat) (p : string) : calls_at_most n (existsSync H p).
Proof. intros w. simpl. lia. Qed.

Lemma most_run (n : nat) (c : command) : calls_at_most (S n) (run H c).
Proof.
  intros w. unfold run. destruct (host_command H c w) as [[e|] w']; simpl; lia.
Qed.

Lemma most_ask (n : nat) (q : query) : calls_at_most (S n) (ask H q).
Proof. intros w. unfold ask. destruct (host_query H q w). simpl. lia. Qed.

Lemma most_content (n : nat) : calls_at_most (S n) (content H).
Proof. intros w. unfold content. destruct (host_content H w). simpl. lia. Qed.

Lemma most_bind {A B : Type} (a b : nat) (m : M H A) (k : A -> M H B) :
  calls_at_most a m -> (forall x, calls_at_most b (k x)) -> calls_at_most (a + b) (bind m k).
Proof.
  intros Hm Hk w. unfold bind. specialize (Hm w).
  destruct (m w) as [[[x|e] w1] log1]; simpl in Hm |- *; [|lia].
  specialize (Hk x w1). destruct (k x w1) as [[r w2] log2]; simpl in Hk |- *.
  rewrite length_app. lia.
Qed.

Lemma most_bind_silent {A B : Type} (n : nat) (m : M H A) (k : A -> M H B) :
  calls_at_most 0 m -> (forall x, calls_at_most n (k x)) -> calls_at_most n (bind m k).
Proof. intros Hm Hk. exact (most_bind 0 n m k Hm Hk). Qed.

Lemma most_bind_one {A B : Type} (n : nat) (m : M H A) (k : A -> M H B) :
  calls_at_most 1 m -> (forall x, calls_at_most n (k x)) -> calls_at_most (S n) (bind m k).
Proof. intros Hm Hk. exact (most_bind 1 n m k Hm Hk). Qed.

Lemma most_if {A : Type} (n : nat) (b : bool) (m1 m2 : M H A) :
  calls_at_most n m1 -> calls_at_most n m2 -> calls_at_most n (if b then m1 else m2).
Proof. now destruct b. Qed.

Lemma most_switch {A : Type} (bound : string -> nat) (scrutinee : string)
  (cases : list (string * M H A)) (fallback : M H A) :
  Forall (fun c => calls_at_most (bound (fst c)) (snd c)) cases ->
  calls_at_most (bound scrutinee) fallback ->
  calls_at_most (bound scrutinee) (switch scrutinee cases fallback).
Proof.
  intros Hcases Hfallback. induction Hcases as [|[label body] rest Hbody _ IH]; simpl.
  - assumption.
  - destruct (String.eqb_spec scrutinee label) as [->|_]; assumption.
Qed.
End CallBounds.

Ltac silent :=
  solve [ apply most_ret | apply most_throw | apply most_lift | apply most_url
        | apply most_existsSync ].

Ltac most :=
  repeat first
    [ silent
    | apply most_run
    | apply most_ask
    | apply most_content
    | apply most_if
    | apply most_bind_silent; [silent | intro]
    | apply most_bind_one; [|intro] ].

Lemma simple_executeStep_neutral (H : Host) (step : value) :
  session_neutral (SimpleRunner.executeStep H step).
Proof.
  unfold SimpleRunner.executeStep. apply neutral_bind; [auto with neutral|].
  intros [action payload]. apply neutral_switch; [|auto with neutral].
  unfold SimpleRunner.cases. repeat (apply Forall_cons; [cbn [snd]; neutral|]).
  apply Forall_nil.
Qed.

Lemma status_cases_calls (H : Host) (payload : value) :
  Forall (fun c => calls_at_most (if String.eqb (fst c) "screenshot" then 2 else 1) (snd c))
    (StatusRunner.cases H payload).
Proof.
  unfold StatusRunner.cases.
  repeat (apply Forall_cons; [cbn [fst snd String.eqb Ascii.eqb Bool.eqb]; most|]).
  apply Forall_nil.
Qed.

Lemma simple_cases_calls (H : Host) (payload : value) :
  Forall (fun c => calls_at_most 1 (snd c)) (SimpleRunner.cases H payload).
Proof.
  unfold SimpleRunner.cases.
  repeat (apply Forall_cons; [cbn [fst snd]; most|]).
  apply Forall_nil.
Qed.

(** X3. Whatever the step and the host, a step never launches or closes a
    browser, and it is a thin translation.  Counting the calls that act on
    the page or the file system (the reads [page.url()] and [fs.existsSync]
    are not logged), it makes none when it has no first entry, at most two
    when its action is [screenshot] (the directory, then the image), and at
    most one for every other action, known or not.  In [run-spec.js] a step
    makes at most one such call. *)
Theorem step_is_at_most_one_page_call (H : Host) (step : value) (w : W H) :
  forallb page_level (snd (StatusRunner.executeStep H step w)) = true /\
  length (snd (StatusRunner.executeStep H step w))
  <= match first_entry step with
     | Ok (action, _) => if String.eqb action "screenshot" then 2 else 1
     | Throw _ => 0
     end /\
  forallb page_level (snd (SimpleRunner.executeStep H step w)) = true /\
  length (snd (SimpleRunner.executeStep H step w)) <= 1.
Proof.
  split; [apply status_executeStep_neutral|]. split; [|split].
  - unfold StatusRunner.executeStep, bind, lift.
    destruct (first_entry step) as [[action payload]|e]; [|simpl; lia].
    pose proof (most_switch (fun a => if String.eqb a "screenshot" then 2 else 1) action
                  (StatusRunner.cases H payload)
                  (throw (Error ("Unknown action: " ++ action)))
                  (status_cases_calls H payload)) as Hbound.
    cbv beta in Hbound.
    assert (Hfallback : calls_at_most (if String.eqb action "screenshot" then 2 else 1)
                          (@throw H unit (Error ("Unknown action: " ++ action))))
      by apply most_throw.
    specialize (Hbound Hfallback w). unfold ret.
    match goal with |- context [switch ?a ?c ?d w] =>
      destruct (switch a c d w) as [[r w'] log] end.
    exact Hbound.
  - apply simple_executeStep_neutral.
  - unfold SimpleRunner.executeStep, bind, lift.
    destruct (first_entry step) as [[action payload]|e]; [|simpl; lia].
    pose proof (most_switch (fun _ => 1%nat) action (SimpleRunner.cases H payload)
                  (throw (Error ("Unknown action: " ++ action)))
                  (simple_cases_calls H payload) (most_throw 1 _) w) as Hbound.
    unfold ret.
    match goal with |- context [switch ?a ?c ?d w] =>
      destruct (switch a c d w) as [[r w'] log] end.
    exact Hbound.
Qed.

(** ** Assertions on buttons and on the page text *)

(** X4. [assert_enabled] asks the page whether the button is disabled and
    passes exactly when the answer is no; [assert_disabled] asks whether it
    is enabled and passes exactly when the answer is no.  Either makes that
    one query and nothing else; a query that rejects fails the step with the
    error of the query. *)
Theorem button_assertions_negate_the_opposite_query (H : Host) (name : value) (w : W H) :
  let enabled := StatusRunner.executeStep H (VObj [("assert_enabled", name)]) w in
  let disabled := StatusRunner.executeStep H (VObj [("assert_disabled", name)]) w in
  (fst (fst enabled) = Ok tt <-> fst (host_query H (ButtonIsDisabled name) w) = Ok false) /\
  (forall e, fst (host_query H (ButtonIsDisabled name) w) = Throw e -> fst (fst enabled) = Throw e) /\
  snd enabled = [Asked (ButtonIsDisabled name)] /\
  (fst (fst disabled) = Ok tt <-> fst (host_query H (ButtonIsEnabled name) w) = Ok false) /\
  (forall e, fst (host_query H (ButtonIsEnabled name) w) = Throw e -> fst (fst disabled) = Throw e) /\
  snd disabled = [Asked (ButtonIsEnabled name)].
Proof.
  intros enabled disabled. subst enabled disabled.
  rewrite !status_executeStep_entry. cbn [switch StatusRunner.cases String.eqb Ascii.eqb Bool.eqb].
  unfold bind, ask, throw, ret.
  destruct (host_query H (ButtonIsDisabled name) w) as [[[]|e1] w1];
    destruct (host_query H (ButtonIsEnabled name) w) as [[[]|e2] w2];
    cbn; repeat split; intros; try discriminate; try congruence.
Qed.

Lemma simple_assert_visible_run (H : Host) (expected : value) (w : W H) :
  SimpleRunner.executeStep H (VObj [("assert_visible", expected)]) w =
  match host_content H w with
  | (Ok html, w') =>
      if includes html (to_string expected)
      then (Ok tt, w', [ReadContent])
      else (Throw (Error ("Text " ++ dquote ++ to_string expected ++ dquote
                          ++ " not found on page")), w', [ReadContent])
  | (Throw e, w') => (Throw e, w', [ReadContent])
  end.
Proof.
  rewrite simple_executeStep_entry. cbn [switch SimpleRunner.cases String.eqb Ascii.eqb Bool.eqb].
  unfold bind, content, throw, ret.
  destruct (host_content H w) as [[html|e] w']; [|reflexivity].
  destruct (includes html (to_string expected)); reflexivity.
Qed.

(** X5. In [run-spec.js], [assert_visible] reads the markup of the page once
    and passes exactly when the expected string occurs in it, character for
    character; otherwise it throws an [Error] that quotes the string, and a
    read that rejects fails the step with its error.  The status-aware runner
    does not read the markup: there the same step is one bounded wait for the
    text to become visible. *)
Theorem simple_assert_visible_searches_page_markup (H : Host) (expected : string) (w : W H) :
  let step := VObj [("assert_visible", VStr expected)] in
  match host_content H w with
  | (Ok html, w') =>
      (SimpleRunner.executeStep H step w = (Ok tt, w', [ReadContent])
       <-> occurs_in expected html) /\
      (SimpleRunner.executeStep H step w
       = (Throw (Error ("Text " ++ dquote ++ expected ++ dquote ++ " not found on page")),
          w', [ReadContent])
       <-> ~ occurs_in expected html)
  | (Throw e, w') => SimpleRunner.executeStep H step w = (Throw e, w', [ReadContent])
  end /\
  StatusRunner.executeStep H step w = run H (TextWaitFor (VStr expected) "visible" 5000) w.
Proof.
  intros step. subst step. split.
  - rewrite simple_assert_visible_run. simpl to_string.
    destruct (host_content H w) as [[html|e] w']; [|reflexivity].
    rewrite <- includes_spec.
    destruct (includes html expected); repeat split;
      intros; try reflexivity; try discriminate; try congruence.
  - rewrite status_executeStep_entry. reflexivity.
Qed.

(** ** Scenarios that pass *)

Lemma simple_run_scenario_passed (H : Host) (counts : nat * nat)
  (scenario : Scenario) (w w1 : W H) (log : list event) :
  SimpleRunner.run_steps H (scenario_steps scenario) w = (Ok tt, w1, log) ->
  SimpleRunner.run_scenario H counts scenario w = (Ok (S (fst counts), snd counts), w1, log).
Proof.
  intros Hsteps. unfold SimpleRunner.run_scenario.
  apply try_catch_ok. rewrite (bind_ok _ _ _ _ _ _ Hsteps). unfold ret.
  now rewrite app_nil_r.
Qed.

(** X6. A scenario is counted as passed exactly when every one of its steps
    completes: the pass counter goes up by one, with the world and the log
    the steps leave (no screenshot is asked for), if and only if the loop over
    the steps ends without an error.  This holds in both runners. *)
Theorem scenario_passes_iff_every_step_completes
  (H : Host) (specPath : string) (counts : nat * nat) (scenario : Scenario)
  (w w' : W H) (log : list event) :
  (StatusRunner.run_scenario H specPath counts scenario w
   = (Ok (S (fst counts), snd counts), w', log)
   <-> StatusRunner.run_steps H (scenario_steps scenario) w = (Ok tt, w', log)) /\
  (SimpleRunner.run_scenario H counts scenario w
   = (Ok (S (fst counts), snd counts), w', log)
   <-> SimpleRunner.run_steps H (scenario_steps scenario) w = (Ok tt, w', log)).
Proof.
  split; split.
  - destruct (StatusRunner.run_steps H (scenario_steps scenario) w)
      as [[[[]|e] w1] log1] eqn:Hsteps.
    + rewrite (status_run_scenario_passed _ _ _ _ _ _ _ Hsteps). congruence.
    + rewrite (status_run_scenario_failed _ _ _ _ _ _ _ _ Hsteps).
      destruct (host_command H _ w1) as [[e'|] w2]; [discriminate|].
      intros Heq. injection Heq as Hfst _ _. exfalso. now apply (n_Sn (fst counts)).
  - apply status_run_scenario_passed.
  - destruct (SimpleRunner.run_steps H (scenario_steps scenario) w)
      as [[[[]|e] w1] log1] eqn:Hsteps.
    + rewrite (simple_run_scenario_passed _ _ _ _ _ _ Hsteps). congruence.
    + rewrite (simple_run_scenario_failed _ _ _ _ _ _ _ Hsteps).
      intros Heq. injection Heq as Hfst _ _. exfalso. now apply (n_Sn (fst counts)).
  - apply simple_run_scenario_passed.
Qed.

(** ** The two runners side by side *)

(** X7. On every step whose action is not [assert_visible], and is either
    in the table of [run-spec.js] or in neither table, the two runners do the
    same: same outcome, same world, same calls.  The status-aware runner
    changed the meaning of no action of the earlier one but [assert_visible]. *)
Theorem runners_agree_except_on_assert_visible
  (H : Host) (action : string) (payload : value) (others : list (string * value)) (w : W H) :
  action <> "assert_visible" ->
  In action SimpleRunner.supported_actions \/ ~ In action StatusRunner.supported_actions ->
  StatusRunner.executeStep H (VObj ((action, payload) :: others)) w
  = SimpleRunner.executeStep H (VObj ((action, payload) :: others)) w.
Proof.
  intros Hvisible Haction.
  rewrite status_executeStep_entry, simple_executeStep_entry.
  destruct Haction as [Hin|Hnot].
  - simpl in Hin.
    repeat (destruct Hin as [<-|Hin]; [first [reflexivity | now contradiction Hvisible]|]).
    contradiction.
  - rewrite !switch_fallback; [reflexivity | |].
    + rewrite simple_cases_labels. intros Hin. apply Hnot. simpl in Hin |- *. tauto.
    + now rewrite status_cases_labels.
Qed.

Lemma runners_agree_except_on_assert_visible_witness :
  StatusRunner.executeStep Fixture.host
    (VObj [("fill", VObj [("selector", VStr "#email"); ("value", VStr "a@b.com")])])
    Fixture.start
  = SimpleRunner.executeStep Fixture.host
      (VObj [("fill", VObj [("selector", VStr "#email"); ("value", VStr "a@b.com")])])
      Fixture.start.
Proof.
  apply (runners_agree_except_on_assert_visible Fixture.host "fill"); [discriminate|].
  left. simpl. tauto.
Defined.

(** ** Counting scenarios *)

Lemma status_run_scenarios_counts (H : Host) (specPath : string) (scenarios : list Scenario)
  (counts counts' : nat * nat) (w w' : W H) (log : list event) :
  StatusRunner.run_scenarios H specPath counts scenarios w = (Ok counts', w', log) ->
  (fst counts' + snd counts' = fst counts + snd counts + length scenarios)%nat.
Proof.
  revert counts w log. induction scenarios as [|scenario rest IH]; intros counts w log Hrun.
  - injection Hrun as <- _ _. simpl. lia.
  - simpl in Hrun. apply bind_ok_inv in Hrun.
    destruct Hrun as (c1 & w1 & log1 & log2 & Hone & Hrest & _).
    apply IH in Hrest. rewrite Hrest. simpl.
    destruct (StatusRunner.run_steps H (scenario_steps scenario) w)
      as [[[[]|e] w0] log0] eqn:Hsteps.
    + rewrite (status_run_scenario_passed _ _ _ _ _ _ _ Hsteps) in Hone.
      injection Hone as <- _ _. simpl. lia.
    + rewrite (status_run_scenario_failed _ _ _ _ _ _ _ _ Hsteps) in Hone.
      destruct (host_command H _ w0) as [[e'|] w2]; [discriminate|].
      injection Hone as <- _ _. simpl. lia.
Qed.

(** A run that returns went through the scenario loop of the loaded spec. *)
Lemma status_runSpec_inv (H : Host) (specFile : string) (w w1 : W H)
  (r : StatusRunner.SpecResult) (log : list event) :
  StatusRunner.runSpec H specFile w = (Ok r, w1, log) ->
  exists spec counts wa wb logs,
    host_load H specFile w = Ok spec /\
    StatusRunner.run_scenarios H specFile (0, 0)%nat (spec_scenarios spec) wa
    = (Ok counts, wb, logs) /\
    StatusRunner.passed r = fst counts /\ StatusRunner.failed r = snd counts.
Proof.
  intros Hrun. unfold StatusRunner.runSpec in Hrun.
  apply bind_ok_inv in Hrun. destruct Hrun as (r0 & w0 & log0 & log0' & Hbody & Hclose & _).
  apply bind_ok_inv in Hclose. destruct Hclose as (u & wc & lc & lc' & _ & Hret & _).
  unfold ret in Hret. injection Hret as Hr _ _. subst r0.
  unfold StatusRunner.runSpec_body in Hbody.
  apply bind_ok_inv in Hbody. destruct Hbody as (spec & wa & la & la' & Hload & Hbody & _).
  unfold load in Hload. injection Hload as Hload Hw _. subst wa.
  exists spec.
  do 5 (apply bind_ok_inv in Hbody; destruct Hbody as (? & ? & ? & ? & _ & Hbody & _)).
  apply bind_ok_inv in Hbody.
  destruct Hbody as (counts & wb & logs & logs' & Hloop & Hret & _).
  injection Hret as <- _ _.
  eexists counts, _, wb, logs. repeat split; eassumption.
Qed.

(** X8. Every result [runSpec] returns accounts for each scenario of the
    loaded spec exactly once: its passed and failed counts add up to the
    number of scenarios.  A spec with no scenario returns zero and zero. *)
Theorem returned_result_counts_each_scenario_once
  (H : Host) (specFile : string) (w w1 : W H) (r : StatusRunner.SpecResult) (log : list event) :
  StatusRunner.runSpec H specFile w = (Ok r, w1, log) ->
  exists spec,
    host_load H specFile w = Ok spec /\
    (StatusRunner.passed r + StatusRunner.failed r = length (spec_scenarios spec))%nat.
Proof.
  intros Hrun.
  destruct (status_runSpec_inv H _ _ _ _ _ Hrun)
    as (spec & counts & wa & wb & logs & Hload & Hloop & -> & ->).
  exists spec. split; [assumption|].
  now rewrite (status_run_scenarios_counts _ _ _ _ _ _ _ _ Hloop).
Qed.

Lemma returned_result_counts_each_scenario_once_witness :
  exists spec,
    host_load Fixture.host "/p/specs/login.yaml" Fixture.start = Ok spec /\
    (1 + 1 = length (spec_scenarios spec))%nat.
Proof.
  exact (returned_result_counts_each_scenario_once Fixture.host "/p/specs/login.yaml"
           Fixture.start "https://x.test/login" (StatusRunner.mkSpecResult 1 1 "active") _
           eq_refl).
Defined.

Lemma simple_run_steps_neutral (H : Host) (steps : list value) :
  session_neutral (SimpleRunner.run_steps H steps).
Proof.
  induction steps as [|step steps IH]; simpl; [auto with neutral|].
  apply neutral_bind; [apply simple_executeStep_neutral | intros _; exact IH].
Qed.

(** X9. In [run-spec.js] the loop over the scenarios cannot throw: whatever
    the steps do, it ends with counters that account for each scenario exactly
    once, having launched and closed no browser. *)
Theorem simple_scenario_loop_always_completes
  (H : Host) (scenarios : list Scenario) (counts : nat * nat) (w : W H) :
  exists counts' w' log,
    SimpleRunner.run_scenarios H counts scenarios w = (Ok counts', w', log) /\
    (fst counts' + snd counts' = fst counts + snd counts + length scenarios)%nat /\
    forallb page_level log = true.
Proof.
  revert counts w. induction scenarios as [|scenario rest IH]; intros counts w.
  - exists counts, w, []. split; [reflexivity | split; [simpl; lia | reflexivity]].
  - assert (Hone : exists c1 w1 log1,
               SimpleRunner.run_scenario H counts scenario w = (Ok c1, w1, log1) /\
               (fst c1 + snd c1 = S (fst counts + snd counts))%nat /\
               forallb page_level log1 = true).
    { pose proof (simple_run_steps_neutral H (scenario_steps scenario) w) as Hneutral.
      destruct (SimpleRunner.run_steps H (scenario_steps scenario) w)
        as [[[[]|e] w1] log1] eqn:Hsteps.
      - rewrite (simple_run_scenario_passed _ _ _ _ _ _ Hsteps).
        do 3 eexists. split; [reflexivity | split; [simpl; lia | exact Hneutral]].
      - rewrite (simple_run_scenario_failed _ _ _ _ _ _ _ Hsteps).
        do 3 eexists. split; [reflexivity | split; [simpl; lia | exact Hneutral]]. }
    destruct Hone as (c1 & w1 & log1 & Hone & Hsum & Hlog1).
    destruct (IH c1 w1) as (c2 & w2 & log2 & Hrest & Hsum2 & Hlog2).
    exists c2, w2, (log1 ++ log2)%list. split; [|split].
    + simpl. rewrite (bind_ok _ _ _ _ _ _ Hone), Hrest. reflexivity.
    + simpl. lia.
    + now rewrite forallb_app, Hlog1, Hlog2.
Qed.

(** ** [run-spec.js] from launch to exit *)

(** X10. In [run-spec.js], once the spec has loaded and the browser and its
    page have opened, the run always reaches [browser.close()]: the log is the
    load, the headed launch, the page, the events of the scenarios and the
    close, with exactly one launch and one close in it, and when the close
    resolves [runSpec] answers whether the failure counter is zero. *)
Theorem simple_run_always_reaches_close
  (H : Host) (specPath : string) (spec : Spec) (w w1 w2 : W H) :
  host_load H specPath w = Ok spec ->
  host_command H (ChromiumLaunch false) w = (None, w1) ->
  host_command H BrowserNewPage w1 = (None, w2) ->
  exists counts w3 log3,
    SimpleRunner.run_scenarios H (0, 0)%nat (spec_scenarios spec) w2 = (Ok counts, w3, log3) /\
    let log := (Loaded specPath :: Did (ChromiumLaunch false) :: Did BrowserNewPage
                  :: log3 ++ [Did BrowserClose])%list in
    launches log = 1%nat /\ closes log = 1%nat /\
    SimpleRunner.runSpec H specPath w
    = match host_command H BrowserClose w3 with
      | (None, w4) => (Ok (snd counts =? 0)%nat, w4, log)
      | (Some e, w4) => (Throw e, w4, log)
      end.
Proof.
  intros Hload Hlaunch Hpage.
  destruct (simple_scenario_loop_always_completes H (spec_scenarios spec) (0, 0)%nat w2)
    as (counts & w3 & log3 & Hloop & _ & Hneutral).
  exists counts, w3, log3. split; [exact Hloop|].
  destruct (neutral_counts log3 Hneutral) as [Hl Hc].
  intros log. subst log. split; [|split].
  - unfold launches in *. cbn [filter length]. rewrite filter_app, length_app, Hl. reflexivity.
  - unfold closes in *. cbn [filter length]. rewrite filter_app, length_app, Hc. reflexivity.
  - unfold SimpleRunner.runSpec.
    rewrite (bind_ok _ _ w w spec [Loaded specPath]) by (unfold load; now rewrite Hload).
    rewrite (bind_ok _ _ w w1 tt [Did (ChromiumLaunch false)])
      by (unfold run; now rewrite Hlaunch).
    rewrite (bind_ok _ _ w1 w2 tt [Did BrowserNewPage]) by (unfold run; now rewrite Hpage).
    rewrite (bind_ok _ _ _ _ _ _ Hloop).
    unfold bind, run, ret.
    destruct (host_command H BrowserClose w3) as [[e|] w4]; cbn;
      rewrite ?app_nil_r; reflexivity.
Qed.

Lemma simple_run_always_reaches_close_witness :
  exists counts w3 log3,
    SimpleRunner.run_scenarios Fixture.host (0, 0)%nat (spec_scenarios Fixture.login_spec)
      Fixture.start
    = (Ok counts, w3, log3) /\
    let log := (Loaded "/p/specs/login.yaml" :: Did (ChromiumLaunch false) :: Did BrowserNewPage
                  :: log3 ++ [Did BrowserClose])%list in
    launches log = 1%nat /\ closes log = 1%nat /\
    SimpleRunner.runSpec Fixture.host "/p/specs/login.yaml" Fixture.start
    = match host_command Fixture.host BrowserClose w3 with
      | (None, w4) => (Ok (snd counts =? 0)%nat, w4, log)
      | (Some e, w4) => (Throw e, w4, log)
      end.
Proof.
  exact (simple_run_always_reaches_close Fixture.host "/p/specs/login.yaml" Fixture.login_spec
           Fixture.start Fixture.start Fixture.start eq_refl eq_refl eq_refl).
Defined.

(** X11. The script [run-spec.js] never lets an error escape and exits with
    0 or 1.  It exits with 0 exactly when it was given a non-empty first
    argument and the run of that spec returned that no scenario failed; a
    missing or empty argument, a run that throws and a failed scenario all
    exit with 1.  Arguments after the first are not read. *)
Theorem simple_main_exit_code (H : Host) (args : list string) (w : W H) :
  exists code w' log,
    SimpleRunner.main H args w = (Ok code, w', log) /\
    (code = 0%nat \/ code = 1%nat) /\
    (code = 0%nat <->
     exists specPath rest,
       args = specPath :: rest /\ specPath <> "" /\
       fst (fst (SimpleRunner.runSpec H (path_resolve H specPath) w)) = Ok true).
Proof.
  destruct args as [|specPath rest].
  - exists 1%nat, w, []. split; [reflexivity|]. split; [now right|].
    split; [discriminate | intros (p & r & Habs & _); discriminate].
  - unfold SimpleRunner.main.
    destruct (String.eqb_spec specPath "") as [->|Hnonempty].
    + exists 1%nat, w, []. split; [reflexivity|]. split; [now right|].
      split; [discriminate|].
      intros (p & r & Heq & Hp & _). injection Heq as <- _. contradiction.
    + destruct (SimpleRunner.runSpec H (path_resolve H specPath) w)
        as [[[success|e] w1] log1] eqn:Hrun.
      * exists (if success then 0%nat else 1%nat), w1, log1. split; [|split].
        -- apply try_catch_ok. rewrite (bind_ok _ _ _ _ _ _ Hrun). cbn.
           now rewrite app_nil_r.
        -- destruct success; auto.
        -- split.
           ++ intros Hcode. exists specPath, rest. repeat split; [assumption|].
              rewrite Hrun. destruct success; [reflexivity | discriminate].
           ++ intros (p & r & Heq & _ & Hok). injection Heq as <- _.
              rewrite Hrun in Hok. cbn in Hok. now injection Hok as ->.
      * exists 1%nat, w1, log1. split; [|split].
        -- rewrite (try_catch_throw _ _ w w1 e log1) by (now apply bind_throw).
           cbn. now rewrite app_nil_r.
        -- now right.
        -- split; [discriminate|].
           intros (p & r & Heq & _ & Hok). injection Heq as <- _.
           rewrite Hrun in Hok. discriminate.
Qed.

(** ** The loop of [main] *)

(** X12. The loop of [main] is strictly sequential: running it over a list
    of spec files followed by another is running it over the first list and
    then, from the summary and the world this leaves, over the second; the log
    is the one followed by the other. *)
Theorem main_loop_runs_files_in_order
  (H : Host) (first later : list string) (results : StatusRunner.Results) (w : W H) :
  StatusRunner.main_loop H (first ++ later) results w
  = bind (StatusRunner.main_loop H first results)
         (fun results' => StatusRunner.main_loop H later results') w.
Proof.
  revert results w. induction first as [|specFile rest IH]; intros results w.
  - simpl. unfold bind, ret.
    now destruct (StatusRunner.main_loop H later results w) as [[r w'] log].
  - simpl. unfold bind.
    destruct (StatusRunner.run_file H results specFile w) as [[[results1|e] w1] log1];
      [|reflexivity].
    rewrite IH. unfold bind.
    destruct (StatusRunner.main_loop H rest results1 w1) as [[[results2|e] w2] log2];
      [|reflexivity].
    destruct (StatusRunner.main_loop H later results2 w2) as [[r w3] log3].
    now rewrite app_assoc.
Qed.

Lemma absorb_passes (results : StatusRunner.Results) (o : outcome StatusRunner.SpecResult) :
  StatusRunner.Bucket.passed (StatusRunner.active (absorb results o))
  = (StatusRunner.Bucket.passed (StatusRunner.active results) + active_passes o)%nat /\
  StatusRunner.Bucket.passed (StatusRunner.draft (absorb results o))
  = (StatusRunner.Bucket.passed (StatusRunner.draft results) + draft_passes o)%nat.
Proof.
  unfold absorb, active_passes, draft_passes, StatusRunner.add_result.
  destruct o as [r|e]; [|cbn; lia].
  unfold StatusRunner.results_slot.
  destruct (String.eqb (StatusRunner.status r) "active"); [cbn; try lia; try reflexivity|].
  destruct (String.eqb (StatusRunner.status r) "draft"); [cbn; try lia; try reflexivity|].
  destruct (String.eqb (StatusRunner.status r) "__proto__"); [cbn; try lia; try reflexivity|].
  destruct (StatusRunner.mem (StatusRunner.status r) StatusRunner.object_prototype_keys);
    [cbn; try lia; try reflexivity|].
  destruct (StatusRunner.prototype_has_counters results
            && StatusRunner.mem (StatusRunner.status r) ["passed"; "failed"]);
    cbn; try lia; try reflexivity.
Qed.

Lemma fold_absorb_passes (outcomes : list (outcome StatusRunner.SpecResult))
  (results : StatusRunner.Results) :
  StatusRunner.Bucket.passed (StatusRunner.active (fold_left absorb outcomes results))
  = (StatusRunner.Bucket.passed (StatusRunner.active results)
     + list_sum (map active_passes outcomes))%nat /\
  StatusRunner.Bucket.passed (StatusRunner.draft (fold_left absorb outcomes results))
  = (StatusRunner.Bucket.passed (StatusRunner.draft results)
     + list_sum (map draft_passes outcomes))%nat.
Proof.
  revert results. induction outcomes as [|o rest IH]; intros results; simpl; [lia|].
  destruct (IH (absorb results o)) as [-> ->].
  destruct (absorb_passes results o) as [-> ->]. lia.
Qed.

(** X13. Whatever the spec files, the loop of [main] ends with a summary and
    throws nothing.  Passed scenarios enter the summary only through results
    the runs return with status exactly [active] or [draft]: the passes of the
    active bucket are those of the active results, the passes of the draft
    bucket those of the draft results, and a run that throws, or returns any
    other status, contributes no pass, however many of its scenarios passed. *)
Theorem summary_passes_come_from_returned_results (H : Host) (specFiles : list string) (w : W H) :
  let outcomes := StatusRunner.spec_outcomes H specFiles w in
  exists summary w' log,
    StatusRunner.main_loop H specFiles StatusRunner.empty_results w = (Ok summary, w', log) /\
    StatusRunner.Bucket.passed (StatusRunner.active summary)
    = list_sum (map active_passes outcomes) /\
    StatusRunner.Bucket.passed (StatusRunner.draft summary)
    = list_sum (map draft_passes outcomes).
Proof.
  intros outcomes.
  destruct (main_loop_folds H specFiles StatusRunner.empty_results w) as (w' & log & Hloop).
  fold outcomes in Hloop.
  exists (fold_left absorb outcomes StatusRunner.empty_results), w', log.
  split; [exact Hloop|].
  destruct (fold_absorb_passes outcomes StatusRunner.empty_results) as [-> ->].
  split; reflexivity.
Qed.

(** ** Screenshot names *)

Lemma lower_char_facts (c : ascii) :
  lower_char (lower_char c) = lower_char c /\ is_space (lower_char c) = is_space c.
Proof.
  destruct c as [[] [] [] [] [] [] [] []]; vm_compute; split; reflexivity.
Qed.

Lemma toLowerCase_idempotent (s : string) : toLowerCase (toLowerCase s) = toLowerCase s.
Proof.
  induction s as [|c s IH]; simpl; [reflexivity|].
  now rewrite IH, (proj1 (lower_char_facts c)).
Qed.

Lemma toLowerCase_dash_runs (s : string) (in_run : bool) :
  toLowerCase (dash_runs in_run s) = dash_runs in_run (toLowerCase s).
Proof.
  revert in_run. induction s as [|c s IH]; intros in_run; simpl; [reflexivity|].
  rewrite (proj2 (lower_char_facts c)).
  destruct (is_space c); [destruct in_run|]; simpl; now rewrite IH.
Qed.

Lemma dash_runs_without_space (s : string) (in_run : bool) :
  (forall c, In c (list_ascii_of_string s) -> is_space c = false) ->
  dash_runs in_run s = s.
Proof.
  revert in_run. induction s as [|c s IH]; intros in_run Hplain; simpl; [reflexivity|].
  rewrite (Hplain c) by (now left).
  rewrite IH; [reflexivity|]. intros c' Hc'. apply Hplain. now right.
Qed.

(** X14. For scenario names of code units below 256, the file name of a
    failure screenshot does not tell apart names that differ only in letter
    case: two scenarios of one spec whose names have the same lower-case form
    get the same file name, so the later screenshot replaces the earlier.
    Naming is idempotent: a scenario named after the transformed name gets the
    same file name again. *)
Theorem screenshot_name_ignores_letter_case
  (H : Host) (specPath : string) (one other : Scenario) :
  toLowerCase (scenario_name one) = toLowerCase (scenario_name other) ->
  StatusRunner.screenshotName H specPath one = StatusRunner.screenshotName H specPath other /\
  StatusRunner.screenshotName H specPath
    (mkScenario (toLowerCase (replace_whitespace (scenario_name one))) (scenario_steps one))
  = StatusRunner.screenshotName H specPath one.
Proof.
  intros Hsame. unfold StatusRunner.screenshotName, replace_whitespace. cbn [scenario_name].
  split.
  - now rewrite !toLowerCase_dash_runs, Hsame.
  - rewrite (toLowerCase_dash_runs (toLowerCase _)), toLowerCase_idempotent.
    rewrite <- toLowerCase_dash_runs.
    rewrite (dash_runs_without_space (dash_runs false (scenario_name one))); [reflexivity|].
    intros c. apply dash_runs_no_space.
Qed.

Lemma screenshot_name_ignores_letter_case_witness :
  StatusRunner.screenshotName Fixture.host "/p/specs/login.yaml" (mkScenario "Wrong Password" [])
  = StatusRunner.screenshotName Fixture.host "/p/specs/login.yaml"
      (mkScenario "wrong password" []).
Proof.
  exact (proj1 (screenshot_name_ignores_letter_case Fixture.host "/p/specs/login.yaml"
                  (mkScenario "Wrong Password" []) (mkScenario "wrong password" []) eq_refl)).
Defined.

(** ** The order of a spec run *)

Lemma status_runSpec_body_shape (H : Host) (specPath : string) (w : W H) :
  let '(r, w1, log1) := StatusRunner.runSpec_body H specPath w in
  (log1 = [Loaded specPath] /\ exists e, r = Throw e) \/
  exists tail,
    log1 = Loaded specPath :: Did (ChromiumLaunch (StatusRunner.headless H)) :: tail /\
    forallb page_level tail = true.
Proof.
  unfold StatusRunner.runSpec_body.
  unfold bind at 1. unfold load at 1.
  destruct (host_load H specPath w) as [spec|e]; [|left; eauto].
  unfold bind at 1.
  destruct (StatusRunner.toUpperCase_receiver (js_or (spec_status spec) (VStr "draft")))
    as [status|e]; [|left; cbn; eauto].
  cbn [lift]. unfold ret at 1. cbv iota beta.
  unfold bind at 1. unfold run at 1.
  destruct (host_command H (ChromiumLaunch (StatusRunner.headless H)) w) as [[e|] w0];
    [right; exists []; split; reflexivity|].
  match goal with |- context [bind ?m ?k w0] =>
    assert (Hneutral : session_neutral (bind m k)) end.
  { neutral. apply status_run_scenarios_neutral. }
  match goal with |- context [bind ?m ?k w0] =>
    specialize (Hneutral w0); destruct (bind m k w0) as [[r w1] log1] end.
  cbn [snd] in Hneutral. right. exists log1. split; [reflexivity | exact Hneutral].
Qed.

(** X15. A spec run always begins by loading the spec file, and nothing
    touches a browser before that.  If the log goes on, its next event is the
    one launch of the run, headless exactly when the environment variable
    [CI] is set to a non-empty string; what follows neither launches nor
    closes a browser, up to a closing [browser.close()], if there is one, as
    the last event. *)
Theorem spec_run_loads_then_launches (H : Host) (specPath : string) (w : W H) :
  let log := snd (StatusRunner.runSpec H specPath w) in
  (StatusRunner.headless H = true <-> exists s, env_CI H = Some s /\ s <> "") /\
  (log = [Loaded specPath] \/
   exists tail,
     forallb page_level tail = true /\
     (log = Loaded specPath :: Did (ChromiumLaunch (StatusRunner.headless H)) :: tail \/
      log = (Loaded specPath :: Did (ChromiumLaunch (StatusRunner.headless H)) :: tail
               ++ [Did BrowserClose])%list)).
Proof.
  intros log. subst log. split.
  - unfold StatusRunner.headless. destruct (env_CI H) as [s|].
    + destruct (String.eqb_spec s ""); simpl; split.
      * discriminate.
      * intros (s' & Hs' & Hnonempty). injection Hs' as <-. contradiction.
      * intros _. now exists s.
      * reflexivity.
    + split; [discriminate | intros (s & Hs & _); discriminate].
  - pose proof (status_runSpec_body_shape H specPath w) as Hshape.
    unfold StatusRunner.runSpec, bind.
    destruct (StatusRunner.runSpec_body H specPath w) as [[[result|e] w1] log1].
    + destruct Hshape as [[_ [e He]]|(tail & -> & Htail)]; [discriminate|].
      right. exists tail. split; [exact Htail|]. right.
      destruct (run_log (H := H) BrowserClose w1) as (r & w2 & ->).
      destruct r as [[]|e]; cbn; now rewrite ?app_nil_r.
    + destruct Hshape as [[-> _]|(tail & -> & Htail)]; [now left|].
      right. exists tail. split; [exact Htail | now left].
Qed.

(** ** Steps in order *)

(** X16. The steps of a scenario run strictly in the order listed: the loop
    over a list of steps followed by another is the loop over the first list
    and then, unless it threw, the loop over the second from the world it
    left, the log being the one followed by the other.  This holds in both
    runners. *)
Theorem steps_run_in_listed_order (H : Host) (first later : list value) (w : W H) :
  StatusRunner.run_steps H (first ++ later) w
  = bind (StatusRunner.run_steps H first) (fun _ => StatusRunner.run_steps H later) w /\
  SimpleRunner.run_steps H (first ++ later) w
  = bind (SimpleRunner.run_steps H first) (fun _ => SimpleRunner.run_steps H later) w.
Proof.
  split; revert w; induction first as [|step rest IH]; intros w.
  - simpl. unfold bind, ret.
    now destruct (StatusRunner.run_steps H later w) as [[r w'] log].
  - simpl. unfold bind.
    destruct (StatusRunner.executeStep H step w) as [[[[]|e] w1] log1]; [|reflexivity].
    rewrite IH. unfold bind.
    destruct (StatusRunner.run_steps H rest w1) as [[[[]|e] w2] log2]; [|reflexivity].
    destruct (StatusRunner.run_steps H later w2) as [[r w3] log3].
    now rewrite app_assoc.
  - simpl. unfold bind, ret.
    now destruct (SimpleRunner.run_steps H later w) as [[r w'] log].
  - simpl. unfold bind.
    destruct (SimpleRunner.executeStep H step w) as [[[[]|e] w1] log1]; [|reflexivity].
    rewrite IH. unfold bind.
    destruct (SimpleRunner.run_steps H rest w1) as [[[[]|e] w2] log2]; [|reflexivity].
    destruct (SimpleRunner.run_steps H later w2) as [[r w3] log3].
    now rewrite app_assoc.
Qed.
